(** * DebateAgent: structural integrity of evidence-grounded responses

    A shallow embedding of [models.py] and [evidence.py].

    The Python code performs its I/O (HTTP liveness probes, the web-search
    provider, the completion provider, console prints) in the middle of
    otherwise pure data construction.  Every such effect is recorded as an
    [Event] appended to a chronological trace, and the answer of the outside
    world to a call is an oracle that may depend on everything that happened
    before.  Python exceptions are the left summand of the result. *)

From Stdlib Require Import ZArith QArith Lia.
From stdpp Require Import base strings gmap list pretty.

#[local] Set Warnings "-clear-no-such-hyp".
Local Open Scope Z_scope.

(** ** External collaborators *)

(** [httpx.head] / [httpx.get] with the keyword arguments the code passes. *)
Inductive HttpMethod := HEAD | GET.

Record HttpRequest := {
  rq_method : HttpMethod;
  rq_url : string;
  rq_timeout : Q;
  rq_follow_redirects : bool;
  rq_headers : list (string * string)
}.

(** Python exceptions that travel through the modelled code.  [ValueError]
    carries the [__cause__] set by [raise ... from e]. *)
Record RequestError := { request_error_str : string }.

Inductive Exn :=
| ExRequestError (e : RequestError)
| ExValueError (msg : string) (cause : option RequestError)
| ExProviderError (msg : string).

Inductive HttpOutcome :=
| Response (status_code : Z)
| HttpRaises (e : RequestError).

(** [TavilyClient.search] keyword arguments and its reply, a dict whose
    entries are read with [.get(key, default)]. *)
Record SearchCall := {
  sc_api_key : string;
  sc_query : string;
  sc_search_depth : string;
  sc_max_results : Z;
  sc_include_raw_content : bool;
  sc_include_domains : list string
}.

Record RawHit := {
  hit_title : option string;
  hit_url : option string;
  hit_content : option string;
  hit_score : option Q
}.

Record SearchResponse := { resp_results : option (list RawHit) }.

Inductive SearchOutcome :=
| SearchReturns (r : SearchResponse)
| SearchRaises (msg : string).

(** [evidence.py]: the three data classes. *)
Record SearchResult := {
  sr_title : string;
  sr_url : string;
  sr_content : string;
  sr_score : Q
}.

Record SourceSummary := {
  ss_url : string;
  ss_title : string;
  ss_summary : string;
  ss_key_claims : list string;
  ss_relevance_to_topic : string
}.

Record GatheredEvidence := {
  query_used : string;
  sources : list SourceSummary
}.

(** [client.chat.completions.create] keyword arguments. *)
Record ChatMessage := { role : string; content : string }.

Record CompletionCall := {
  cc_model : string;
  cc_messages : list ChatMessage;
  cc_temperature : Q;
  cc_max_tokens : Z;
  cc_response_model : string;
  cc_max_retries : Z
}.

Inductive CompletionOutcome :=
| CompletionReturns (srcs : list SourceSummary)
| CompletionRaises (msg : string).

(** ** Effects *)

Inductive Event :=
| EvPrint (line : string)
| EvHttp (rq : HttpRequest)
| EvSearch (c : SearchCall)
| EvCompletion (c : CompletionCall).

Definition Trace := list Event.

Definition is_network_call (ev : Event) : bool :=
  match ev with
  | EvPrint _ => false
  | _ => true
  end.

(** The process-wide collaborators reached through module imports. *)
Record World := {
  http : Trace -> HttpRequest -> HttpOutcome;
  tavily : Trace -> SearchCall -> SearchOutcome
}.

(** The completion client is an argument of the functions that use it. *)
Definition Client := Trace -> CompletionCall -> CompletionOutcome.

(** A computation that may raise [X] and extends the trace. *)
Definition Eff (X A : Type) : Type := Trace -> (X + A) * Trace.

Definition ret {X A} (a : A) : Eff X A := fun tr => (inr a, tr).
Definition raise {X A} (x : X) : Eff X A := fun tr => (inl x, tr).

Definition bind {X A B} (m : Eff X A) (k : A -> Eff X B) : Eff X B :=
  fun tr =>
    match m tr with
    | (inl x, tr') => (inl x, tr')
    | (inr a, tr') => k a tr'
    end.

Definition emit {X} (ev : Event) : Eff X unit := fun tr => (inr tt, tr ++ [ev]).

Definition print {X} (line : string) : Eff X unit := emit (EvPrint line).

(** [try: body except <handled> as e: handler e]. *)
Definition try_except {X Y A} (body : Eff X A) (handler : X -> Eff Y A) : Eff Y A :=
  fun tr =>
    match body tr with
    | (inl x, tr') => handler x tr'
    | (inr a, tr') => (inr a, tr')
    end.

Declare Scope eff_scope.
Delimit Scope eff_scope with eff.
Notation "x <- m ;; k" := (bind m (fun x => k))
  (at level 100, m at next level, right associativity) : eff_scope.
Notation "m ;;; k" := (bind m (fun _ => k))
  (at level 100, right associativity) : eff_scope.
Local Open Scope eff_scope.

Definition result {X A} (r : (X + A) * Trace) : X + A := fst r.
Definition trace_of {X A} (r : (X + A) * Trace) : Trace := snd r.

Definition succeeds {X A} (r : (X + A) * Trace) : Prop := exists a, fst r = inr a.
Definition raises {X A} (r : (X + A) * Trace) : Prop := exists x, fst r = inl x.

Definition nl : string := String (Ascii.ascii_of_nat 10) "".

(** ** pydantic's validation layer

    A validator either fails with line errors, each at a location inside the
    input, or lets an exception that is not a [ValueError] escape.  Sibling
    fields and list items are all validated, their line errors accumulated;
    an escaping exception stops validation at once.  At the top level
    [LineErrors] is the [ValidationError] the constructor raises. *)

Inductive LocItem := Field (name : string) | Index (i : nat).

Inductive ErrorType :=
| value_error (e : Exn)
| url_parsing
| too_short (min_length actual_length : nat).

Record LineError := { loc : list LocItem; err : ErrorType }.

Inductive ValError :=
| LineErrors (errs : list LineError)
| Propagated (e : Exn).

Definition Validation (A : Type) : Type := Eff ValError A.

Definition line_error {A} (t : ErrorType) : Validation A :=
  raise (LineErrors [{| loc := []; err := t |}]).

Definition with_outer_location (l : LocItem) (x : ValError) : ValError :=
  match x with
  | LineErrors errs =>
      LineErrors (map (fun e => {| loc := l :: loc e; err := err e |}) errs)
  | Propagated e => Propagated e
  end.

Definition at_loc {A} (l : LocItem) (v : Validation A) : Validation A :=
  fun tr =>
    match v tr with
    | (inl x, tr') => (inl (with_outer_location l x), tr')
    | (inr a, tr') => (inr a, tr')
    end.

(** Two sibling validators, run in order. *)
Definition both {A B} (va : Validation A) (vb : Validation B) : Validation (A * B) :=
  fun tr =>
    match va tr with
    | (inl (Propagated e), tr1) => (inl (Propagated e), tr1)
    | (inl (LineErrors ea), tr1) =>
        match vb tr1 with
        | (inl (Propagated e), tr2) => (inl (Propagated e), tr2)
        | (inl (LineErrors eb), tr2) => (inl (LineErrors (ea ++ eb)), tr2)
        | (inr _, tr2) => (inl (LineErrors ea), tr2)
        end
    | (inr a, tr1) =>
        match vb tr1 with
        | (inl x, tr2) => (inl x, tr2)
        | (inr b, tr2) => (inr (a, b), tr2)
        end
    end.

(** [List[T]]: every item is validated at its index. *)
Fixpoint validate_list {R A} (item : R -> Validation A) (i : nat) (raws : list R)
  : Validation (list A) :=
  match raws with
  | [] => ret []
  | r :: rs =>
      p <- both (at_loc (Index i) (item r)) (validate_list item (S i) rs) ;;
      ret (fst p :: snd p)
  end.

(** [Field(min_length=n)] on a list: checked once the items are valid. *)
Definition min_length {A} (n : nat) (v : Validation (list A)) : Validation (list A) :=
  xs <- v ;;
  if (length xs <? n)%nat then line_error (too_short n (length xs)) else ret xs.

(** [@field_validator] in its default "after" mode and
    [@model_validator(mode="after")]: a [ValueError] raised by the function
    becomes a line error, any other exception escapes. *)
Definition function_after {A} (inner : Validation A) (f : A -> Eff Exn A) : Validation A :=
  v <- inner ;;
  try_except (f v) (fun e =>
    match e with
    | ExValueError _ _ => line_error (value_error e)
    | _ => raise (Propagated e)
    end).

(** [pydantic.AnyUrl]: the parser and [str()] of the parsed value. *)
Class UrlLib := {
  AnyUrl : Type;
  AnyUrl_parse : string -> option AnyUrl;
  AnyUrl_str : AnyUrl -> string
}.

Definition validate_AnyUrl `{U : UrlLib} (s : string) : Validation AnyUrl :=
  match AnyUrl_parse s with
  | Some u => ret u
  | None => line_error url_parsing
  end.

(** ** models.py *)

Section Models.
Context `{U : UrlLib}.
Variable W : World.

Definition httpx_request (m : HttpMethod) (url : string) (timeout : Q)
    (follow_redirects : bool) (headers : list (string * string)) : Eff Exn Z :=
  fun tr =>
    let rq := {| rq_method := m; rq_url := url; rq_timeout := timeout;
                 rq_follow_redirects := follow_redirects;
                 rq_headers := headers |} in
    (match http W tr rq with
     | Response status_code => inr status_code
     | HttpRaises e => inl (ExRequestError e)
     end, tr ++ [EvHttp rq]).

Definition httpx_head := httpx_request HEAD.
Definition httpx_get := httpx_request GET.

(** [except httpx.RequestError as e]: other exceptions pass through. *)
Definition except_RequestError {A} (body : Eff Exn A)
    (handler : RequestError -> Eff Exn A) : Eff Exn A :=
  try_except body (fun x =>
    match x with
    | ExRequestError e => handler e
    | other => raise other
    end).

(** *** class Reference *)

Record Reference := { ref_title : option string; ref_url : AnyUrl }.

Definition user_agent : string :=
  "Mozilla/5.0 (Windows NT 10.0; Win64; x64) "
  +:+ "AppleWebKit/537.36 (KHTML, like Gecko) "
  +:+ "Chrome/120.0.0.0 Safari/537.36".

Definition returned_status (url_str : string) (status_code : Z) : Exn :=
  ExValueError ("URL '" +:+ url_str +:+ "' returned status " +:+ pretty status_code)
               None.

Definition failed_to_reach (url_str : string) (e : RequestError) : Exn :=
  ExValueError ("Failed to reach URL '" +:+ url_str +:+ "': " +:+ request_error_str e)
               (Some e).

Definition validate_url_returns_200 (v : AnyUrl) : Eff Exn AnyUrl :=
  let url_str := AnyUrl_str v in
  except_RequestError
    (let headers := [("User-Agent", user_agent)] in
     response <- httpx_head url_str 10 true headers ;;
     response <- (if 400 <=? response
                  then httpx_get url_str 10 true headers
                  else ret response) ;;
     if (response =? 404) || (response =? 410)
     then raise (returned_status url_str response)
     else if (400 <=? response) && negb ((response =? 401) || (response =? 403))
     then raise (returned_status url_str response)
     else ret tt)
    (fun e => raise (failed_to_reach url_str e)) ;;;
  ret v.

Record RawReference := { raw_title : option string; raw_url : string }.

Definition construct_Reference (raw : RawReference) : Validation Reference :=
  p <- both (at_loc (Field "title") (ret (raw_title raw)))
            (at_loc (Field "url")
               (function_after (validate_AnyUrl (raw_url raw))
                               validate_url_returns_200)) ;;
  ret {| ref_title := fst p; ref_url := snd p |}.

(** *** class ReferencedParagraph *)

Record ReferencedParagraph := {
  rp_text : string;
  rp_references : list Reference
}.

(** [raw_references = None]: the key is absent and [default_factory=list]
    supplies the value. *)
Record RawReferencedParagraph := {
  raw_text : string;
  raw_references : option (list RawReference)
}.

Definition construct_ReferencedParagraph (raw : RawReferencedParagraph)
  : Validation ReferencedParagraph :=
  p <- both (at_loc (Field "text") (ret (raw_text raw)))
            (at_loc (Field "references")
               match raw_references raw with
               | None => ret []
               | Some rs => validate_list construct_Reference 0 rs
               end) ;;
  ret {| rp_text := fst p; rp_references := snd p |}.

(** *** class ReferencedParagraphs *)

Record ReferencedParagraphs := { rps_paragraphs : list ReferencedParagraph }.

(** The inner [for r in p.references] loop over the running [seen] set. *)
Fixpoint RP_scan_references (refs : list Reference) (seen : gset string)
  : Exn + gset string :=
  match refs with
  | [] => inr seen
  | r :: rest =>
      let url_str := AnyUrl_str (ref_url r) in
      if bool_decide (url_str ∈ seen)
      then inl (ExValueError
                  ("Duplicate reference URL across paragraphs is not allowed: "
                   +:+ url_str) None)
      else RP_scan_references rest ({[url_str]} ∪ seen)
  end.

(** The outer [for idx, p in enumerate(self.paragraphs)] loop. *)
Fixpoint RP_scan_paragraphs (idx : nat) (ps : list ReferencedParagraph)
    (seen : gset string) : Exn + gset string :=
  match ps with
  | [] => inr seen
  | p :: rest =>
      match rp_references p with
      | [] => inl (ExValueError
                     ("paragraphs." +:+ pretty idx +:+ ".references must not be empty")
                     None)
      | _ :: _ =>
          match RP_scan_references (rp_references p) seen with
          | inl e => inl e
          | inr seen' => RP_scan_paragraphs (S idx) rest seen'
          end
      end
  end.

Definition RP_ensure_unique_urls_across_paragraphs (self : ReferencedParagraphs)
  : Eff Exn ReferencedParagraphs :=
  match RP_scan_paragraphs 0 (rps_paragraphs self) ∅ with
  | inl e => raise e
  | inr _ => ret self
  end.

Record RawReferencedParagraphs := {
  raw_paragraphs : list RawReferencedParagraph
}.

Definition construct_ReferencedParagraphs (raw : RawReferencedParagraphs)
  : Validation ReferencedParagraphs :=
  function_after
    (ps <- at_loc (Field "paragraphs")
             (validate_list construct_ReferencedParagraph 0 (raw_paragraphs raw)) ;;
     ret {| rps_paragraphs := ps |})
    RP_ensure_unique_urls_across_paragraphs.

(** *** class EvidenceBasedReference *)

Record EvidenceBasedReference := {
  ebr_url : string;
  ebr_title : option string;
  ebr_supporting_claim : string
}.

(** Three plain fields, no validator: the input is the object. *)
Definition construct_EvidenceBasedReference (raw : EvidenceBasedReference)
  : Validation EvidenceBasedReference :=
  p <- both (at_loc (Field "url") (ret (ebr_url raw)))
            (both (at_loc (Field "title") (ret (ebr_title raw)))
                  (at_loc (Field "supporting_claim")
                     (ret (ebr_supporting_claim raw)))) ;;
  ret {| ebr_url := fst p; ebr_title := fst (snd p);
         ebr_supporting_claim := snd (snd p) |}.

(** *** class EvidenceBasedParagraph *)

Record EvidenceBasedParagraph := {
  ebp_text : string;
  ebp_references : list EvidenceBasedReference
}.

Definition construct_EvidenceBasedParagraph (raw : EvidenceBasedParagraph)
  : Validation EvidenceBasedParagraph :=
  p <- both (at_loc (Field "text") (ret (ebp_text raw)))
            (at_loc (Field "references")
               (min_length 1
                  (validate_list construct_EvidenceBasedReference 0
                     (ebp_references raw)))) ;;
  ret {| ebp_text := fst p; ebp_references := snd p |}.

(** *** class EvidenceBasedResponse *)

Record EvidenceBasedResponse := { ebs_paragraphs : list EvidenceBasedParagraph }.

Fixpoint EB_scan_references (refs : list EvidenceBasedReference)
    (seen : gset string) : Exn + gset string :=
  match refs with
  | [] => inr seen
  | r :: rest =>
      if bool_decide (ebr_url r ∈ seen)
      then inl (ExValueError
                  ("Duplicate reference URL across paragraphs: " +:+ ebr_url r) None)
      else EB_scan_references rest ({[ebr_url r]} ∪ seen)
  end.

Fixpoint EB_scan_paragraphs (ps : list EvidenceBasedParagraph)
    (seen : gset string) : Exn + gset string :=
  match ps with
  | [] => inr seen
  | p :: rest =>
      match EB_scan_references (ebp_references p) seen with
      | inl e => inl e
      | inr seen' => EB_scan_paragraphs rest seen'
      end
  end.

Definition EB_ensure_unique_urls_across_paragraphs (self : EvidenceBasedResponse)
  : Eff Exn EvidenceBasedResponse :=
  match EB_scan_paragraphs (ebs_paragraphs self) ∅ with
  | inl e => raise e
  | inr _ => ret self
  end.

Definition construct_EvidenceBasedResponse (raw : EvidenceBasedResponse)
  : Validation EvidenceBasedResponse :=
  function_after
    (ps <- at_loc (Field "paragraphs")
             (validate_list construct_EvidenceBasedParagraph 0 (ebs_paragraphs raw)) ;;
     ret {| ebs_paragraphs := ps |})
    EB_ensure_unique_urls_across_paragraphs.

End Models.

(** ** evidence.py

    The [@span] decorator of [decorators.py] wraps each function in a
    telemetry span and returns what the function returns; it is transparent
    here. *)

Section Evidence.
Variable W : World.

Definition include_domains : list string :=
  ["ncbi.nlm.nih.gov"; "pubmed.ncbi.nlm.nih.gov"; "nhtsa.gov"; "who.int";
   "gov"; "edu"; "wikipedia.org"; "sciencedirect.com"; "nature.com";
   "bmj.com"; "thelancet.com"].

(** [client.search(...)]: a provider failure is raised to the caller. *)
Definition TavilyClient_search (c : SearchCall) : Eff Exn SearchResponse :=
  fun tr =>
    (match tavily W tr c with
     | SearchReturns r => inr r
     | SearchRaises msg => inl (ExProviderError msg)
     end, tr ++ [EvSearch c]).

Definition search_query (motion side : string) : string :=
  if bool_decide (side = "pro")
  then "arguments supporting: " +:+ motion +:+ " evidence research studies"
  else "arguments against: " +:+ motion +:+ " evidence research studies criticism".

Definition SearchResult_of_hit (r : RawHit) : SearchResult :=
  {| sr_title := default "" (hit_title r);
     sr_url := default "" (hit_url r);
     sr_content := default "" (hit_content r);
     sr_score := default 0%Q (hit_score r) |}.

Definition search_web_for_evidence (motion side tavily_api_key : string)
    (max_results : Z) : Eff Exn (list SearchResult) :=
  let query := search_query motion side in
  print ("[evidence] Searching: " +:+ String.substring 0 80 query +:+ "...") ;;;
  response <- TavilyClient_search
                {| sc_api_key := tavily_api_key;
                   sc_query := query;
                   sc_search_depth := "advanced";
                   sc_max_results := max_results;
                   sc_include_raw_content := false;
                   sc_include_domains := include_domains |} ;;
  let results := map SearchResult_of_hit (default [] (resp_results response)) in
  print ("[evidence] Found " +:+ pretty (length results) +:+ " sources") ;;;
  ret results.

(** [client.chat.completions.create(...)]. *)
Definition chat_completions_create (client : Client) (c : CompletionCall)
  : Eff Exn (list SourceSummary) :=
  fun tr =>
    (match client tr c with
     | CompletionReturns srcs => inr srcs
     | CompletionRaises msg => inl (ExProviderError msg)
     end, tr ++ [EvCompletion c]).

Fixpoint source_blocks (i : nat) (rs : list SearchResult) : list string :=
  match rs with
  | [] => []
  | r :: rest =>
      ("Source " +:+ pretty (i + 1)%nat +:+ ":" +:+ nl
       +:+ "Title: " +:+ sr_title r +:+ nl
       +:+ "URL: " +:+ sr_url r +:+ nl
       +:+ "Content: " +:+ sr_content r) :: source_blocks (S i) rest
  end.

Definition system_prompt (motion side : string) : string :=
  String.concat nl
    ["You are a research assistant analyzing sources for a debate.";
     "Motion: " +:+ motion;
     "Side being argued: " +:+ side;
     "";
     "For each source provided, extract:";
     "1. A concise summary of the main points";
     "2. Key claims or facts that can be used as evidence";
     "3. How this source relates to the debate topic";
     "";
     "Return a JSON object with a 'sources' array containing summaries for each source.";
     "Each source summary must include: url, title, summary, key_claims (array), relevance_to_topic.";
     "IMPORTANT: Use the EXACT URLs provided - do not modify or fabricate URLs."].

Definition summarize_sources (search_results : list SearchResult)
    (motion side : string) (client : Client) (model : string)
  : Eff Exn (list SourceSummary) :=
  match search_results with
  | [] => ret []
  | _ :: _ =>
      let sources_text := String.concat (nl +:+ nl) (source_blocks 0 search_results) in
      let system := system_prompt motion side in
      print ("[evidence] Summarizing " +:+ pretty (length search_results)
             +:+ " sources...") ;;;
      chat_completions_create client
        {| cc_model := model;
           cc_messages := [ {| role := "system"; content := system |};
                            {| role := "user"; content := sources_text |} ];
           cc_temperature := 1 # 10;
           cc_max_tokens := 2000;
           cc_response_model := "SourceSummaryList";
           cc_max_retries := 2 |}
  end.

(** [not tavily_api_key] is true for [None] and for the empty string;
    [truthy] gives the key the remaining code runs with. *)
Definition truthy (tavily_api_key : option string) : option string :=
  match tavily_api_key with
  | None => None
  | Some k => if bool_decide (k = "") then None else Some k
  end.

Definition gather_evidence (motion side : string) (tavily_api_key : option string)
    (client : Client) (model : string) : Eff Exn GatheredEvidence :=
  match truthy tavily_api_key with
  | None =>
      print "[evidence] No TAVILY_API_KEY set - skipping web search" ;;;
      ret {| query_used := ""; sources := [] |}
  | Some key =>
      let query := if bool_decide (side = "pro")
                   then "arguments supporting: " +:+ motion
                   else "arguments against: " +:+ motion in
      search_results <- search_web_for_evidence motion side key 8 ;;
      match search_results with
      | [] =>
          print "[evidence] No search results found" ;;;
          ret {| query_used := query; sources := [] |}
      | _ :: _ =>
          summaries <- summarize_sources search_results motion side client model ;;
          print ("[evidence] Gathered " +:+ pretty (length summaries)
                 +:+ " verified sources") ;;;
          ret {| query_used := query; sources := summaries |}
      end
  end.

End Evidence.

(** ** Concrete collaborators, for running the model *)

(** A small [UrlLib]: a URL is a string with an http or https scheme and
    [str()] gives it back unchanged. *)
Definition has_http_scheme (s : string) : bool :=
  bool_decide (String.substring 0 7 s = "http://")
  || bool_decide (String.substring 0 8 s = "https://").

Definition plain_urls : UrlLib := {|
  AnyUrl := string;
  AnyUrl_parse := fun s => if has_http_scheme s then Some s else None;
  AnyUrl_str := fun u => u
|}.

(** A world whose HTTP answers depend on the method and the URL only, with
    a fixed list of search hits. *)
Definition static_world (status : HttpMethod -> string -> HttpOutcome)
    (hits : option (list RawHit)) : World := {|
  http := fun _ rq => status (rq_method rq) (rq_url rq);
  tavily := fun _ _ => SearchReturns {| resp_results := hits |}
|}.

(** Every probe is answered 404. *)
Definition dead_world : World := static_world (fun _ _ => Response 404) None.

(** Every probe is answered 200. *)
Definition live_world : World := static_world (fun _ _ => Response 200) None.

(** No route to any host. *)
Definition offline_world : World :=
  static_world (fun _ _ => HttpRaises {| request_error_str := "timed out" |}) None.

(** One dead link on an otherwise healthy web. *)
Definition dead_url : string := "http://dead.example/gone".

Definition mixed_world : World :=
  static_world (fun _ u => if bool_decide (u = dead_url)
                           then Response 404 else Response 200) None.

(** A host that answers HEAD with 405 and GET with 403. *)
Definition guarded_world : World :=
  static_world (fun m _ => match m with
                           | HEAD => Response 405
                           | GET => Response 403
                           end) None.

Definition silent_client : Client := fun _ _ => CompletionReturns [].

Definition cite (u : string) : RawReference := {| raw_title := None; raw_url := u |}.

Definition paragraph (t : string) (us : list string) : RawReferencedParagraph :=
  {| raw_text := t; raw_references := Some (map cite us) |}.

Definition evidence_ref (u : string) : EvidenceBasedReference :=
  {| ebr_url := u; ebr_title := None; ebr_supporting_claim := "claim" |}.

Definition evidence_paragraph (t : string) (us : list string) : EvidenceBasedParagraph :=
  {| ebp_text := t; ebp_references := map evidence_ref us |}.

(** ** Vocabulary for the reference validator *)

(** The request [validate_url_returns_200] sends with method [m]. *)
Definition probe (m : HttpMethod) (url : string) : HttpRequest :=
  {| rq_method := m; rq_url := url; rq_timeout := 10;
     rq_follow_redirects := true;
     rq_headers := [("User-Agent", user_agent)] |}.

(** A HEAD answer that triggers the GET retry. *)
Definition needs_retry (o : HttpOutcome) : bool :=
  match o with
  | Response s => 400 <=? s
  | HttpRaises _ => false
  end.

(** The answer the verdict is taken from: the one to HEAD, or the one to
    the GET that follows an error status. *)
Definition final_outcome (W : World) (url : string) (tr : Trace) : HttpOutcome :=
  if needs_retry (http W tr (probe HEAD url))
  then http W (tr ++ [EvHttp (probe HEAD url)]) (probe GET url)
  else http W tr (probe HEAD url).

Definition probes_sent (W : World) (url : string) (tr : Trace) : list Event :=
  EvHttp (probe HEAD url)
  :: (if needs_retry (http W tr (probe HEAD url)) then [EvHttp (probe GET url)] else []).

Definition rejected_status (s : Z) : Prop :=
  s = 404 \/ s = 410 \/ (400 <= s /\ s <> 401 /\ s <> 403).

Definition accepted_status (s : Z) : Prop :=
  s < 400 \/ s = 401 \/ s = 403.

(** ** Vocabulary for the reference-bearing responses *)

(** Every URL cited in a response, paragraph by paragraph, in order. *)
Definition RP_cited_urls `{U : UrlLib} (r : ReferencedParagraphs) : list string :=
  flat_map (fun p => map (fun c => AnyUrl_str (ref_url c)) (rp_references p))
           (rps_paragraphs r).

Definition EB_cited_urls (r : EvidenceBasedResponse) : list string :=
  flat_map (fun p => map ebr_url (ebp_references p)) (ebs_paragraphs r).

(** The references a raw paragraph supplies (none when the key is absent). *)
Definition supplied_references (p : RawReferencedParagraph) : list RawReference :=
  default [] (raw_references p).

(** Every URL string cited in the input of [ReferencedParagraphs]. *)
Definition raw_cited_urls (raw : RawReferencedParagraphs) : list string :=
  flat_map (fun p => map raw_url (supplied_references p)) (raw_paragraphs raw).

(** A raw reference the validator rejects whenever it is probed. *)
Definition always_rejected `{U : UrlLib} (W : World) (c : RawReference) : Prop :=
  forall tr, raises (construct_Reference W c tr).

(** The raw string parses to a URL whose [str()] is [u]. *)
Definition parses_to `{U : UrlLib} (s u : string) : Prop :=
  exists v, AnyUrl_parse s = Some v /\ AnyUrl_str v = u.

(** The integrity conditions [EvidenceBasedResponse] checks. *)
Definition EB_well_formed (r : EvidenceBasedResponse) : Prop :=
  Forall (fun p => ebp_references p <> []) (ebs_paragraphs r)
  /\ NoDup (EB_cited_urls r).

(** ** Vocabulary for the evidence gatherer *)

(** The query [gather_evidence] records in [query_used]. *)
Definition recorded_query (motion side : string) : string :=
  if bool_decide (side = "pro")
  then "arguments supporting: " +:+ motion
  else "arguments against: " +:+ motion.

(** The call [search_web_for_evidence] places with the provider. *)
Definition search_call (motion side key : string) (max_results : Z) : SearchCall :=
  {| sc_api_key := key;
     sc_query := search_query motion side;
     sc_search_depth := "advanced";
     sc_max_results := max_results;
     sc_include_raw_content := false;
     sc_include_domains := include_domains |}.

Definition no_key_notice : Event :=
  EvPrint "[evidence] No TAVILY_API_KEY set - skipping web search".

(** What a successful list validation says about each item. *)
Definition item_ok {R A} (item : R -> Validation A) (raw : R) (x : A) : Prop :=
  exists t t', item raw t = (inr x, t').

(** ** models.py: enumerations and the plain response models *)

(** [class DebateSide(str, Enum)]: members, [.value], and the by-value
    constructor call [DebateSide(v)], which raises [ValueError] when no
    member has the value. *)
Module DebateSide.
Inductive t := pro | con.

Definition value (s : t) : string :=
  match s with
  | pro => "pro"
  | con => "con"
  end.

Definition members : list t := [pro; con].

Definition of_value (v : string) : Exn + t :=
  match List.find (fun m => bool_decide (value m = v)) members with
  | Some m => inr m
  | None => inl (ExValueError ("'" +:+ v +:+ "' is not a valid DebateSide") None)
  end.
End DebateSide.

Module OutputFormat.
Inductive t := points | rebuttal_paragraphs | referenced_paragraphs.

Definition value (f : t) : string :=
  match f with
  | points => "points"
  | rebuttal_paragraphs => "rebuttal_paragraphs"
  | referenced_paragraphs => "referenced_paragraphs"
  end.

Definition members : list t := [points; rebuttal_paragraphs; referenced_paragraphs].

Definition of_value (v : string) : Exn + t :=
  match List.find (fun m => bool_decide (value m = v)) members with
  | Some m => inr m
  | None => inl (ExValueError ("'" +:+ v +:+ "' is not a valid OutputFormat") None)
  end.
End OutputFormat.

Record CounterPoint := { cp_point : string; cp_support : option string }.

Record PointsResponse := { pr_points : list CounterPoint }.

Record RebuttalParagraphs := { rb_paragraphs : list string }.

(** ** agent.py *)

Definition opposite_side (side : DebateSide.t) : DebateSide.t :=
  match side with
  | DebateSide.pro => DebateSide.con
  | _ => DebateSide.pro
  end.

(** ** main.py *)

(** The [agent_side] span attribute computed in [main]. *)
Definition agent_side_attr (student_side : DebateSide.t) : string :=
  if bool_decide (DebateSide.value student_side = "pro") then "con" else "pro".

(** [open(path).read()] as the file system answers it. *)
Inductive FileOutcome :=
| FileContents (text : string)
| OpenRaises (msg : string).

Inductive MainError :=
| SystemExit (msg : string)
| OSError (msg : string).

(** [if arg:] and [if path:] test truthiness: [None] and the empty string
    both fall through. *)
Definition read_argument_text (fs : string -> FileOutcome)
    (arg path : option string) : MainError + string :=
  match truthy arg with
  | Some a => inr a
  | None =>
      match truthy path with
      | Some p =>
          match fs p with
          | FileContents text => inr text
          | OpenRaises msg => inl (OSError msg)
          end
      | None => inl (SystemExit "Provide --argument or --argument_file")
      end
  end.

(** The value [generate_counter] hands back to [main]. *)
Inductive CounterResult `{U : UrlLib} :=
| ResPoints (r : PointsResponse)
| ResRebuttal (r : RebuttalParagraphs)
| ResReferenced (r : ReferencedParagraphs)
| ResEvidence (r : EvidenceBasedResponse).

(** [for i, cp in enumerate(result.points, start=1)]. *)
Fixpoint print_points {X} (i : nat) (cps : list CounterPoint) : Eff X unit :=
  match cps with
  | [] => ret tt
  | cp :: rest =>
      print (pretty i +:+ ". " +:+ cp_point cp) ;;;
      (match truthy (cp_support cp) with
       | Some support => print ("   - " +:+ support)
       | None => ret tt
       end) ;;;
      print_points (S i) rest
  end.

Fixpoint print_rebuttal {X} (paras : list string) : Eff X unit :=
  match paras with
  | [] => ret tt
  | para :: rest => print (nl +:+ para +:+ nl) ;;; print_rebuttal rest
  end.

(** One reference line.  A [Reference] has no [supporting_claim]
    attribute, so the first branch is never taken for it. *)
Definition print_reference {X} (url : string) (title supporting_claim : option string)
  : Eff X unit :=
  match truthy supporting_claim with
  | Some claim =>
      print ("- " +:+ url) ;;;
      print ("  Claim: " +:+ claim)
  | None =>
      match truthy title with
      | Some t => print ("- " +:+ t +:+ ": " +:+ url)
      | None => print ("- " +:+ url)
      end
  end.

Fixpoint print_references {X R} (show : R -> Eff X unit) (refs : list R) : Eff X unit :=
  match refs with
  | [] => ret tt
  | ref :: rest => show ref ;;; print_references show rest
  end.

Definition print_paragraph {X R} (show : R -> Eff X unit) (text : string)
    (refs : list R) : Eff X unit :=
  print (nl +:+ text) ;;;
  match refs with
  | [] => ret tt
  | _ :: _ => print "References:" ;;; print_references show refs
  end.

Definition show_Reference `{U : UrlLib} {X} (ref : Reference) : Eff X unit :=
  print_reference (AnyUrl_str (ref_url ref)) (ref_title ref) None.

Definition show_EvidenceBasedReference {X} (ref : EvidenceBasedReference) : Eff X unit :=
  print_reference (ebr_url ref) (ebr_title ref) (Some (ebr_supporting_claim ref)).

Fixpoint print_referenced `{U : UrlLib} {X} (paras : list ReferencedParagraph)
  : Eff X unit :=
  match paras with
  | [] => ret tt
  | para :: rest =>
      print_paragraph show_Reference (rp_text para) (rp_references para) ;;;
      print_referenced rest
  end.

Fixpoint print_evidence {X} (paras : list EvidenceBasedParagraph) : Eff X unit :=
  match paras with
  | [] => ret tt
  | para :: rest =>
      print_paragraph show_EvidenceBasedReference (ebp_text para) (ebp_references para) ;;;
      print_evidence rest
  end.

(** The tail of [main], from the first [isinstance] test on. *)
Definition print_result `{U : UrlLib} {X} (result : CounterResult) : Eff X unit :=
  match result with
  | ResPoints r => print_points 1 (pr_points r)
  | ResRebuttal r => print_rebuttal (rb_paragraphs r)
  | ResReferenced r => print_referenced (rps_paragraphs r)
  | ResEvidence r => print_evidence (ebs_paragraphs r)
  end.

(** ** decorators.py *)

Section Span.
(** Python values that travel as keyword arguments, with their truthiness
    and the empty dict literal. *)
Variable Val : Type.
Variable is_truthy : Val -> bool.
Variable empty_dict : Val.
(** [with logfire.span(name, attributes=attrs): body]. *)
Variable logfire_span : forall X A : Type, string -> Val -> Eff X A -> Eff X A.

Definition span {X A} (name : string)
    (func : list Val -> gmap string Val -> Eff X A)
  : list Val -> gmap string Val -> Eff X A :=
  fun args kwargs =>
    let attrs := match kwargs !! "span_attrs" with
                 | Some v => if is_truthy v then v else empty_dict
                 | None => empty_dict
                 end in
    let kwargs := delete "span_attrs" kwargs in
    logfire_span X A name attrs (func args kwargs).

End Span.

(** ** Vocabulary for the added properties *)

(** The URLs of the HEAD probes among some events, in order. *)
Definition head_urls (out : list Event) : list string :=
  flat_map (fun ev => match ev with
                      | EvHttp {| rq_method := HEAD; rq_url := u |} => [u]
                      | _ => []
                      end) out.

Definition is_probe (ev : Event) : Prop := exists m u, ev = EvHttp (probe m u).



(** A validator whose every failure is a non-empty list of line errors:
    no bare exception escapes it. *)
Definition fails_with_line_errors {A} (v : Validation A) : Prop :=
  forall tr x, fst (v tr) = inl x -> exists errs, x = LineErrors errs /\ errs <> [].

(** A validator whose effects are probes, with HEAD sent to [urls]. *)
Definition probes {A} (v : Validation A) (urls : list string) : Prop :=
  forall tr, exists out,
    snd (v tr) = tr ++ out /\ Forall is_probe out /\ head_urls out = urls.

Definition empty_references_message (idx : nat) : Exn :=
  ExValueError ("paragraphs." +:+ pretty idx +:+ ".references must not be empty") None.

Definition duplicate_message (url_str : string) : Exn :=
  ExValueError ("Duplicate reference URL across paragraphs is not allowed: " +:+ url_str)
               None.

(** A [UrlLib] that normalises: [str()] ends in a slash. *)
Fixpoint with_trailing_slash (s : string) : string :=
  match s with
  | "" => "/"
  | String c "" => if bool_decide (s = "/") then s else String c "/"
  | String c rest => String c (with_trailing_slash rest)
  end.

Definition slashed_urls : UrlLib := {|
  AnyUrl := string;
  AnyUrl_parse := fun s => if has_http_scheme s then Some s else None;
  AnyUrl_str := with_trailing_slash
|}.

(** The lines [search_web_for_evidence] and [summarize_sources] log, and
    the completion request [summarize_sources] places. *)
Definition searching_notice (motion side : string) : Event :=
  EvPrint ("[evidence] Searching: "
           +:+ String.substring 0 80 (search_query motion side) +:+ "...").

Definition found_notice (n : nat) : Event :=
  EvPrint ("[evidence] Found " +:+ pretty n +:+ " sources").

Definition summarizing_notice (n : nat) : Event :=
  EvPrint ("[evidence] Summarizing " +:+ pretty n +:+ " sources...").

Definition gathered_notice (n : nat) : Event :=
  EvPrint ("[evidence] Gathered " +:+ pretty n +:+ " verified sources").

Definition completion_call (search_results : list SearchResult)
    (motion side model : string) : CompletionCall :=
  {| cc_model := model;
     cc_messages :=
       [ {| role := "system"; content := system_prompt motion side |};
         {| role := "user";
            content := String.concat (nl +:+ nl) (source_blocks 0 search_results) |} ];
     cc_temperature := 1 # 10;
     cc_max_tokens := 2000;
     cc_response_model := "SourceSummaryList";
     cc_max_retries := 2 |}.

(** The hits a provider reply carries. *)
Definition hits_of (o : SearchOutcome) : list RawHit :=
  match o with
  | SearchReturns r => default [] (resp_results r)
  | SearchRaises _ => []
  end.

(** The block of the user message that shows one search result. *)
Definition source_block (k : nat) (r : SearchResult) : string :=
  "Source " +:+ pretty (k + 1)%nat +:+ ":" +:+ nl
  +:+ "Title: " +:+ sr_title r +:+ nl
  +:+ "URL: " +:+ sr_url r +:+ nl
  +:+ "Content: " +:+ sr_content r.

Definition contains (text part : string) : Prop :=
  exists before after, text = before +:+ part +:+ after.

(** Validated objects over [plain_urls]. *)
Definition plain_reference (u : string) : @Reference plain_urls :=
  {| ref_title := None; ref_url := (u : @AnyUrl plain_urls) |}.

Definition plain_paragraph (t : string) (us : list string) : @ReferencedParagraph plain_urls :=
  {| rp_text := t; rp_references := map plain_reference us |}.

(** Worlds and clients for running the evidence gatherer. *)
Definition search_down_world : World := {|
  http := fun _ _ => Response 200;
  tavily := fun _ _ => SearchRaises "503 Service Unavailable"
|}.

Definition one_hit : RawHit :=
  {| hit_title := Some "WHO fact sheet";
     hit_url := Some "https://who.int/fact";
     hit_content := Some "Facts.";
     hit_score := None |}.

Definition one_hit_world : World := static_world (fun _ _ => Response 200) (Some [one_hit]).

Definition failing_client : Client := fun _ _ => CompletionRaises "schema validation failed".

(** A client that answers with a source the search never returned. *)
Definition fabricated_summary : SourceSummary :=
  {| ss_url := "https://invented.example/";
     ss_title := "Invented";
     ss_summary := "";
     ss_key_claims := [];
     ss_relevance_to_topic := "" |}.

Definition fabricating_client : Client := fun _ _ => CompletionReturns [fabricated_summary].

(** Vocabulary for the output of [main]. *)

(** A computation that only prints [lines], in order, and returns. *)
Definition prints {X} (m : Eff X unit) (lines : list string) : Prop :=
  forall tr, m tr = (inr tt, tr ++ map EvPrint lines).

Definition has_support (cp : CounterPoint) : bool :=
  match truthy (cp_support cp) with
  | Some _ => true
  | None => false
  end.

Definition ends_with (line u : string) : Prop := exists before, line = before +:+ u.

(** The lines one reference comes out as. *)
Definition reference_lines (url : string) (title supporting_claim : option string)
  : list string :=
  match truthy supporting_claim with
  | Some claim => ["- " +:+ url; "  Claim: " +:+ claim]
  | None =>
      match truthy title with
      | Some t => ["- " +:+ t +:+ ": " +:+ url]
      | None => ["- " +:+ url]
      end
  end.

Definition paragraph_lines {R} (f : R -> list string) (text : string) (refs : list R)
  : list string :=
  (nl +:+ text)
  :: match refs with
     | [] => []
     | _ :: _ => "References:" :: flat_map f refs
     end.

Definition has_claim (ref : EvidenceBasedReference) : bool :=
  negb (bool_decide (ebr_supporting_claim ref = "")).

Definition EB_references (r : EvidenceBasedResponse) : list EvidenceBasedReference :=
  flat_map ebp_references (ebs_paragraphs r).

(** * Properties *)

(** ** Reading results *)

Lemma raises_or_succeeds {X A} (r : (X + A) * Trace) : raises r \/ succeeds r.
Proof. destruct r as [[x | a] tr]; [left | right]; eexists; reflexivity. Qed.

Lemma raises_not_succeeds {X A} (r : (X + A) * Trace) : raises r <-> ~ succeeds r.
Proof.
  destruct r as [[x | a] tr]; unfold raises, succeeds; simpl; split.
  - intros _ [a Ha]. discriminate.
  - intros _. eauto.
  - intros [x Hx]. discriminate.
  - intros Hn. exfalso. apply Hn. eauto.
Qed.

Lemma bind_inr {X A B} (m : Eff X A) (k : A -> Eff X B) tr b tr' :
  bind m k tr = (inr b, tr') ->
  exists a t, m tr = (inr a, t) /\ k a t = (inr b, tr').
Proof.
  unfold bind. destruct (m tr) as [[x | a] t]; [discriminate |]. eauto.
Qed.

Lemma at_loc_inr {A} l (v : Validation A) tr a tr' :
  at_loc l v tr = (inr a, tr') -> v tr = (inr a, tr').
Proof.
  unfold at_loc. destruct (v tr) as [[x | a0] t]; [discriminate | auto].
Qed.

Lemma both_inr {A B} (va : Validation A) (vb : Validation B) tr p tr' :
  both va vb tr = (inr p, tr') ->
  exists t, va tr = (inr (fst p), t) /\ vb t = (inr (snd p), tr').
Proof.
  unfold both. destruct (va tr) as [[[ea | e] | a] t].
  - destruct (vb t) as [[[eb | e] | b] t']; discriminate.
  - discriminate.
  - destruct (vb t) as [[x | b] t'] eqn:Hb; [discriminate |].
    intros [= <- <-]. exists t. split; [reflexivity | exact Hb].
Qed.

Lemma function_after_inr {A} (inner : Validation A) (f : A -> Eff Exn A) tr a tr' :
  function_after inner f tr = (inr a, tr') ->
  exists v t, inner tr = (inr v, t) /\ f v t = (inr a, tr').
Proof.
  unfold function_after. intros H.
  apply bind_inr in H as (v & t & Hin & H). exists v, t. split; [exact Hin |].
  unfold try_except in H. destruct (f v t) as [[e | a0] t'].
  - destruct e; discriminate.
  - injection H as <- <-. reflexivity.
Qed.

Lemma validate_list_inr {R A} (item : R -> Validation A) raws :
  forall i tr xs tr',
    validate_list item i raws tr = (inr xs, tr') ->
    Forall2 (item_ok item) raws xs.
Proof.
  induction raws as [| r rs IH]; intros i tr xs tr' H; simpl in H.
  - injection H as <- <-. constructor.
  - apply bind_inr in H as (p & t & Hb & Hr).
    injection Hr as <- <-.
    apply both_inr in Hb as (t1 & Hitem & Hrest).
    apply at_loc_inr in Hitem.
    constructor; [exists tr, t1; exact Hitem | eapply IH; exact Hrest].
Qed.

(** ** The reference validator: facts *)

Lemma rejected_or_accepted s : rejected_status s <-> ~ accepted_status s.
Proof. unfold rejected_status, accepted_status. lia. Qed.

Section ValidatorFacts.
Context `{U : UrlLib}.
Variable W : World.

Lemma validate_url_trace v tr :
  snd (validate_url_returns_200 W v tr) = tr ++ probes_sent W (AnyUrl_str v) tr.
Proof.
  unfold validate_url_returns_200, probes_sent, except_RequestError, try_except,
    bind, httpx_head, httpx_get, httpx_request, raise, ret.
  fold (probe HEAD (AnyUrl_str v)). fold (probe GET (AnyUrl_str v)).
  destruct (http W tr (probe HEAD (AnyUrl_str v))) as [s | e]; simpl; [| reflexivity].
  destruct (400 <=? s) eqn:Hs; simpl.
  - destruct (http W (tr ++ [EvHttp (probe HEAD (AnyUrl_str v))])
                (probe GET (AnyUrl_str v))) as [s' | e']; simpl.
    + destruct ((s' =? 404) || (s' =? 410)); simpl;
        [| destruct ((400 <=? s') && negb ((s' =? 401) || (s' =? 403))); simpl];
        rewrite <- app_assoc; reflexivity.
    + rewrite <- app_assoc; reflexivity.
  - destruct ((s =? 404) || (s =? 410)); simpl;
      [| destruct ((400 <=? s) && negb ((s =? 401) || (s =? 403))); simpl];
      reflexivity.
Qed.

Lemma validate_url_status v tr s :
  final_outcome W (AnyUrl_str v) tr = Response s ->
  (rejected_status s ->
   fst (validate_url_returns_200 W v tr) = inl (returned_status (AnyUrl_str v) s))
  /\ (accepted_status s -> fst (validate_url_returns_200 W v tr) = inr v).
Proof.
  unfold final_outcome, needs_retry, rejected_status, accepted_status.
  unfold validate_url_returns_200, except_RequestError, try_except,
    bind, httpx_head, httpx_get, httpx_request, raise, ret.
  fold (probe HEAD (AnyUrl_str v)). fold (probe GET (AnyUrl_str v)).
  destruct (http W tr (probe HEAD (AnyUrl_str v))) as [s0 | e]; simpl.
  - destruct (400 <=? s0) eqn:Hs0; simpl.
    + intros ->; simpl.
      destruct ((s =? 404) || (s =? 410)) eqn:H1; simpl;
        [| destruct ((400 <=? s) && negb ((s =? 401) || (s =? 403))) eqn:H2; simpl];
        split; intros H; try reflexivity; exfalso; lia.
    + intros [= ->].
      destruct ((s =? 404) || (s =? 410)) eqn:H1; simpl;
        [| destruct ((400 <=? s) && negb ((s =? 401) || (s =? 403))) eqn:H2; simpl];
        split; intros H; try reflexivity; exfalso; lia.
  - discriminate.
Qed.

Lemma validate_url_request_error v tr e :
  final_outcome W (AnyUrl_str v) tr = HttpRaises e ->
  fst (validate_url_returns_200 W v tr) = inl (failed_to_reach (AnyUrl_str v) e).
Proof.
  unfold final_outcome, needs_retry.
  unfold validate_url_returns_200, except_RequestError, try_except,
    bind, httpx_head, httpx_get, httpx_request, raise, ret.
  fold (probe HEAD (AnyUrl_str v)). fold (probe GET (AnyUrl_str v)).
  destruct (http W tr (probe HEAD (AnyUrl_str v))) as [s0 | e0]; simpl.
  - destruct (400 <=? s0) eqn:Hs0; simpl; [| discriminate].
    intros ->. reflexivity.
  - intros [= ->]. reflexivity.
Qed.

(** The validator raises nothing but [ValueError]. *)
Lemma validate_url_raises_ValueError v tr x :
  fst (validate_url_returns_200 W v tr) = inl x ->
  exists msg cause, x = ExValueError msg cause.
Proof.
  destruct (final_outcome W (AnyUrl_str v) tr) as [s | e] eqn:Hf.
  - destruct (validate_url_status v tr s Hf) as [Hrej Hacc].
    destruct (Z.lt_ge_cases s 400) as [Hlt | Hge].
    + rewrite Hacc by (unfold accepted_status; lia). discriminate.
    + destruct (decide (s = 401 \/ s = 403)) as [Hb | Hb].
      * rewrite Hacc by (unfold accepted_status; lia). discriminate.
      * rewrite Hrej by (unfold rejected_status; lia).
        intros [= <-]. unfold returned_status. eauto.
  - rewrite (validate_url_request_error v tr e Hf).
    intros [= <-]. unfold failed_to_reach. eauto.
Qed.

(** Construction of a [Reference] whose URL parses is the validator's
    verdict at the field [url]. *)
Lemma construct_Reference_parsed raw v tr :
  AnyUrl_parse (raw_url raw) = Some v ->
  construct_Reference W raw tr =
    (match fst (validate_url_returns_200 W v tr) with
     | inl e => inl (LineErrors [{| loc := [Field "url"]; err := value_error e |}])
     | inr u => inr {| ref_title := raw_title raw; ref_url := u |}
     end, snd (validate_url_returns_200 W v tr)).
Proof.
  intros Hp.
  unfold construct_Reference, bind, both, at_loc, function_after, bind,
    validate_AnyUrl, try_except, ret.
  rewrite Hp. unfold ret.
  destruct (validate_url_returns_200 W v tr) as [[e | u] t] eqn:Hv; simpl.
  - destruct (validate_url_raises_ValueError v tr e) as (msg & cause & ->).
    { rewrite Hv. reflexivity. }
    reflexivity.
  - reflexivity.
Qed.

Lemma construct_Reference_unparsed raw tr :
  AnyUrl_parse (raw_url raw) = None ->
  construct_Reference W raw tr =
    (inl (LineErrors [{| loc := [Field "url"]; err := url_parsing |}]), tr).
Proof.
  intros Hp.
  unfold construct_Reference, bind, both, at_loc, function_after, bind,
    validate_AnyUrl, line_error, raise, ret.
  rewrite Hp. reflexivity.
Qed.

End ValidatorFacts.

(** ** The uniqueness scans *)

Section ScanFacts.
Context `{U : UrlLib}.

Lemma RP_scan_references_inr refs : forall seen seen',
  RP_scan_references refs seen = inr seen' ->
  NoDup (map (fun c => AnyUrl_str (ref_url c)) refs)
  /\ (forall u, u ∈ map (fun c => AnyUrl_str (ref_url c)) refs -> u ∉ seen)
  /\ (forall u, u ∈ seen' <-> u ∈ map (fun c => AnyUrl_str (ref_url c)) refs \/ u ∈ seen).
Proof.
  induction refs as [| c rest IH]; intros seen seen' H; simpl in *.
  - injection H as <-. split; [constructor |]. split; [set_solver | set_solver].
  - case_bool_decide as Hin; [discriminate |].
    destruct (IH _ _ H) as (Hnd & Hfresh & Hseen).
    split; [| split].
    + constructor; [| exact Hnd].
      intros Hc. apply (Hfresh _ Hc). set_solver.
    + intros u [-> | Hu]%elem_of_cons; [exact Hin |].
      intros Hs. apply (Hfresh _ Hu). set_solver.
    + intros u. rewrite Hseen, elem_of_cons. set_solver.
Qed.

Lemma RP_scan_paragraphs_inr ps : forall idx seen seen',
  RP_scan_paragraphs idx ps seen = inr seen' ->
  Forall (fun p => rp_references p <> []) ps
  /\ NoDup (RP_cited_urls {| rps_paragraphs := ps |})
  /\ (forall u, u ∈ RP_cited_urls {| rps_paragraphs := ps |} -> u ∉ seen)
  /\ (forall u, u ∈ seen' <-> u ∈ RP_cited_urls {| rps_paragraphs := ps |} \/ u ∈ seen).
Proof.
  unfold RP_cited_urls; simpl.
  induction ps as [| p rest IH]; intros idx seen seen' H; simpl in *.
  - injection H as <-. split; [constructor |]. split; [constructor |]. set_solver.
  - destruct (rp_references p) as [| c cs] eqn:Hrefs; [discriminate |].
    destruct (RP_scan_references (c :: cs) seen) as [e | mid] eqn:Hscan; [discriminate |].
    apply RP_scan_references_inr in Hscan as (Hnd1 & Hfresh1 & Hmid).
    apply IH in H as (Hne & Hnd2 & Hfresh2 & Hseen).
    split; [| split; [| split]].
    + constructor; [congruence | exact Hne].
    + apply NoDup_app. split; [exact Hnd1 |]. split; [| exact Hnd2].
      intros u Hu1 Hu2. apply (Hfresh2 _ Hu2). apply Hmid. left. exact Hu1.
    + intros u [Hu | Hu]%elem_of_app; [apply Hfresh1; exact Hu |].
      intros Hs. apply (Hfresh2 _ Hu). apply Hmid. right. exact Hs.
    + intros u. rewrite Hseen, Hmid, elem_of_app. tauto.
Qed.

End ScanFacts.

Lemma EB_scan_references_inr refs : forall seen seen',
  EB_scan_references refs seen = inr seen' ->
  NoDup (map ebr_url refs)
  /\ (forall u, u ∈ map ebr_url refs -> u ∉ seen)
  /\ (forall u, u ∈ seen' <-> u ∈ map ebr_url refs \/ u ∈ seen).
Proof.
  induction refs as [| c rest IH]; intros seen seen' H; simpl in *.
  - injection H as <-. split; [constructor |]. split; [set_solver | set_solver].
  - case_bool_decide as Hin; [discriminate |].
    destruct (IH _ _ H) as (Hnd & Hfresh & Hseen).
    split; [| split].
    + constructor; [| exact Hnd].
      intros Hc. apply (Hfresh _ Hc). set_solver.
    + intros u [-> | Hu]%elem_of_cons; [exact Hin |].
      intros Hs. apply (Hfresh _ Hu). set_solver.
    + intros u. rewrite Hseen, elem_of_cons. set_solver.
Qed.

Lemma EB_scan_references_fresh refs : forall seen,
  NoDup (map ebr_url refs) ->
  (forall u, u ∈ map ebr_url refs -> u ∉ seen) ->
  exists seen', EB_scan_references refs seen = inr seen'.
Proof.
  induction refs as [| c rest IH]; intros seen Hnd Hfresh; simpl in *.
  - eauto.
  - apply NoDup_cons in Hnd as [Hc Hnd].
    rewrite bool_decide_eq_false_2 by (apply Hfresh; left).
    apply IH; [exact Hnd |].
    intros u Hu [->%elem_of_singleton | Hs]%elem_of_union; [exact (Hc Hu) |].
    apply (Hfresh u); [right; exact Hu | exact Hs].
Qed.

Lemma EB_scan_paragraphs_inr ps : forall seen seen',
  EB_scan_paragraphs ps seen = inr seen' ->
  NoDup (EB_cited_urls {| ebs_paragraphs := ps |})
  /\ (forall u, u ∈ EB_cited_urls {| ebs_paragraphs := ps |} -> u ∉ seen)
  /\ (forall u, u ∈ seen' <-> u ∈ EB_cited_urls {| ebs_paragraphs := ps |} \/ u ∈ seen).
Proof.
  unfold EB_cited_urls; simpl.
  induction ps as [| p rest IH]; intros seen seen' H; simpl in *.
  - injection H as <-. split; [constructor |]. set_solver.
  - destruct (EB_scan_references (ebp_references p) seen) as [e | mid] eqn:Hscan;
      [discriminate |].
    apply EB_scan_references_inr in Hscan as (Hnd1 & Hfresh1 & Hmid).
    apply IH in H as (Hnd2 & Hfresh2 & Hseen).
    split; [| split].
    + apply NoDup_app. split; [exact Hnd1 |]. split; [| exact Hnd2].
      intros u Hu1 Hu2. apply (Hfresh2 _ Hu2). apply Hmid. left. exact Hu1.
    + intros u [Hu | Hu]%elem_of_app; [apply Hfresh1; exact Hu |].
      intros Hs. apply (Hfresh2 _ Hu). apply Hmid. right. exact Hs.
    + intros u. rewrite Hseen, Hmid, elem_of_app. tauto.
Qed.

Lemma EB_scan_paragraphs_fresh ps : forall seen,
  NoDup (EB_cited_urls {| ebs_paragraphs := ps |}) ->
  (forall u, u ∈ EB_cited_urls {| ebs_paragraphs := ps |} -> u ∉ seen) ->
  exists seen', EB_scan_paragraphs ps seen = inr seen'.
Proof.
  unfold EB_cited_urls; simpl.
  induction ps as [| p rest IH]; intros seen Hnd Hfresh; simpl in *.
  - eauto.
  - apply NoDup_app in Hnd as (Hnd1 & Hdisj & Hnd2).
    destruct (EB_scan_references_fresh (ebp_references p) seen Hnd1) as [mid Hmid].
    { intros u Hu. apply Hfresh. apply elem_of_app. left. exact Hu. }
    rewrite Hmid.
    apply EB_scan_references_inr in Hmid as (_ & _ & Hmid).
    apply IH; [exact Hnd2 |].
    intros u Hu [Hu1 | Hs]%Hmid.
    + exact (Hdisj u Hu1 Hu).
    + apply (Hfresh u); [apply elem_of_app; right; exact Hu | exact Hs].
Qed.

(** ** Lists related item by item *)

Section Forall2Facts.
Context {A B : Type} (R : A -> B -> Prop).

Lemma Forall2_elem_of_l l k x :
  Forall2 R l k -> x ∈ l -> exists y, y ∈ k /\ R x y.
Proof.
  induction 1 as [| a b l k Hab _ IH]; intros Hx.
  - inversion Hx.
  - apply elem_of_cons in Hx as [-> | Hx].
    + exists b. split; [left | exact Hab].
    + destruct (IH Hx) as (y & Hy & HR). exists y. split; [right; exact Hy | exact HR].
Qed.

Lemma Forall2_NoDup_functional l k :
  (forall x y y', R x y -> R x y' -> y = y') ->
  Forall2 R l k -> NoDup k -> NoDup l.
Proof.
  intros Hfun. induction 1 as [| a b l k Hab Hlk IH]; intros Hnd.
  - constructor.
  - apply NoDup_cons in Hnd as [Hb Hnd]. constructor; [| exact (IH Hnd)].
    intros Ha. destruct (Forall2_elem_of_l _ _ _ Hlk Ha) as (y & Hy & HR).
    rewrite (Hfun _ _ _ Hab HR) in Hb. exact (Hb Hy).
Qed.

Lemma Forall2_flat_map {C D} (f : C -> list A) (g : D -> list B) l k :
  Forall2 (fun c d => Forall2 R (f c) (g d)) l k ->
  Forall2 R (flat_map f l) (flat_map g k).
Proof.
  induction 1 as [| c d l k Hcd _ IH]; simpl.
  - constructor.
  - apply Forall2_app; assumption.
Qed.

End Forall2Facts.

(** ** Successful construction of the citation variant *)

Section ReferencedFacts.
Context `{U : UrlLib}.
Variable W : World.

Lemma parses_to_functional s u u' : parses_to s u -> parses_to s u' -> u = u'.
Proof. intros (v & Hv & <-) (v' & Hv' & <-). congruence. Qed.

Lemma construct_Reference_inr raw c tr tr' :
  construct_Reference W raw tr = (inr c, tr') ->
  AnyUrl_parse (raw_url raw) = Some (ref_url c) /\ ref_title c = raw_title raw.
Proof.
  destruct (AnyUrl_parse (raw_url raw)) as [v |] eqn:Hp.
  - rewrite (construct_Reference_parsed W raw v tr Hp).
    destruct (final_outcome W (AnyUrl_str v) tr) as [s | e] eqn:Hf.
    + destruct (validate_url_status W v tr s Hf) as [Hrej Hacc].
      destruct (decide (accepted_status s)) as [Ha | Ha].
      * rewrite (Hacc Ha). intros [= <- _]. split; reflexivity.
      * apply rejected_or_accepted in Ha. rewrite (Hrej Ha). discriminate.
    + rewrite (validate_url_request_error W v tr e Hf). discriminate.
  - rewrite (construct_Reference_unparsed W raw tr Hp). discriminate.
Qed.

Lemma construct_ReferencedParagraph_inr raw p tr tr' :
  construct_ReferencedParagraph W raw tr = (inr p, tr') ->
  rp_text p = raw_text raw
  /\ Forall2 (item_ok (construct_Reference W)) (supplied_references raw)
             (rp_references p).
Proof.
  unfold construct_ReferencedParagraph, supplied_references. intros H.
  apply bind_inr in H as (q & t & Hb & Hr). injection Hr as <- <-. simpl.
  apply both_inr in Hb as (t1 & Htext & Hrefs).
  apply at_loc_inr in Htext. apply at_loc_inr in Hrefs.
  injection Htext as Htext _. split; [symmetry; exact Htext |].
  destruct (raw_references raw) as [rs |]; simpl.
  - eapply validate_list_inr. exact Hrefs.
  - injection Hrefs as <- _. constructor.
Qed.

Lemma construct_ReferencedParagraphs_inr raw r tr tr' :
  construct_ReferencedParagraphs W raw tr = (inr r, tr') ->
  Forall2 (item_ok (construct_ReferencedParagraph W)) (raw_paragraphs raw)
          (rps_paragraphs r)
  /\ exists seen, RP_scan_paragraphs 0 (rps_paragraphs r) ∅ = inr seen.
Proof.
  unfold construct_ReferencedParagraphs. intros H.
  apply function_after_inr in H as (v & t & Hin & Hafter).
  apply bind_inr in Hin as (ps & t1 & Hps & Hr). injection Hr as <- <-.
  apply at_loc_inr, validate_list_inr in Hps.
  unfold RP_ensure_unique_urls_across_paragraphs in Hafter. simpl in Hafter.
  destruct (RP_scan_paragraphs 0 ps ∅) as [e | seen] eqn:Hscan; [discriminate |].
  injection Hafter as <- _. simpl. split; [exact Hps | eauto].
Qed.

(** The URLs of the object are those of the input, parsed. *)
Lemma construct_ReferencedParagraphs_urls raw r tr tr' :
  construct_ReferencedParagraphs W raw tr = (inr r, tr') ->
  Forall2 parses_to (raw_cited_urls raw) (RP_cited_urls r).
Proof.
  intros H. apply construct_ReferencedParagraphs_inr in H as [Hps _].
  unfold raw_cited_urls, RP_cited_urls.
  apply Forall2_flat_map.
  eapply Forall2_impl; [exact Hps |].
  intros rawp p (t & t' & Hp). simpl.
  apply construct_ReferencedParagraph_inr in Hp as [_ Hrefs].
  apply Forall2_fmap.
  eapply Forall2_impl; [exact Hrefs |].
  intros rawc c (t1 & t1' & Hc). simpl.
  apply construct_Reference_inr in Hc as [Hc _].
  exists (ref_url c). split; [exact Hc | reflexivity].
Qed.

Lemma RP_success_NoDup raw r tr tr' :
  construct_ReferencedParagraphs W raw tr = (inr r, tr') ->
  NoDup (RP_cited_urls r).
Proof.
  intros H. apply construct_ReferencedParagraphs_inr in H as [_ [seen Hscan]].
  apply RP_scan_paragraphs_inr in Hscan as (_ & Hnd & _).
  destruct r. exact Hnd.
Qed.

Lemma RP_success_nonempty raw r tr tr' :
  construct_ReferencedParagraphs W raw tr = (inr r, tr') ->
  Forall (fun p => rp_references p <> []) (rps_paragraphs r).
Proof.
  intros H. apply construct_ReferencedParagraphs_inr in H as [_ [seen Hscan]].
  apply RP_scan_paragraphs_inr in Hscan as (Hne & _). exact Hne.
Qed.

Lemma RP_duplicate_raises raw tr :
  ~ NoDup (raw_cited_urls raw) ->
  raises (construct_ReferencedParagraphs W raw tr).
Proof.
  intros Hdup. apply raises_not_succeeds. intros [r Hr].
  destruct (construct_ReferencedParagraphs W raw tr) as [res tr'] eqn:Hc.
  simpl in Hr. subst res. apply Hdup.
  eapply Forall2_NoDup_functional.
  - exact parses_to_functional.
  - eapply construct_ReferencedParagraphs_urls. exact Hc.
  - eapply RP_success_NoDup. exact Hc.
Qed.

Lemma RP_empty_references_raises raw tr p :
  p ∈ raw_paragraphs raw ->
  supplied_references p = [] ->
  raises (construct_ReferencedParagraphs W raw tr).
Proof.
  intros Hp Hempty. apply raises_not_succeeds. intros [r Hr].
  destruct (construct_ReferencedParagraphs W raw tr) as [res tr'] eqn:Hc.
  simpl in Hr. subst res.
  pose proof (RP_success_nonempty _ _ _ _ Hc) as Hne.
  apply construct_ReferencedParagraphs_inr in Hc as [Hps _].
  destruct (Forall2_elem_of_l _ _ _ _ Hps Hp) as (q & Hq & t & t' & Hok).
  apply construct_ReferencedParagraph_inr in Hok as [_ Hrefs].
  rewrite Hempty in Hrefs. apply Forall2_nil_inv_l in Hrefs.
  rewrite Forall_forall in Hne. exact (Hne q Hq Hrefs).
Qed.

Lemma RP_rejected_reference_raises raw tr p c :
  p ∈ raw_paragraphs raw ->
  c ∈ supplied_references p ->
  always_rejected W c ->
  raises (construct_ReferencedParagraphs W raw tr).
Proof.
  intros Hp Hc Hrej. apply raises_not_succeeds. intros [r Hr].
  destruct (construct_ReferencedParagraphs W raw tr) as [res tr'] eqn:Hcon.
  simpl in Hr. subst res.
  apply construct_ReferencedParagraphs_inr in Hcon as [Hps _].
  destruct (Forall2_elem_of_l _ _ _ _ Hps Hp) as (q & Hq & t & t' & Hok).
  apply construct_ReferencedParagraph_inr in Hok as [_ Hrefs].
  destruct (Forall2_elem_of_l _ _ _ _ Hrefs Hc) as (x & Hx & t1 & t1' & Hok).
  specialize (Hrej t1). apply raises_not_succeeds in Hrej. apply Hrej.
  exists x. rewrite Hok. reflexivity.
Qed.

End ReferencedFacts.

(** ** Construction of the evidence-grounded variant *)

Lemma construct_EvidenceBasedReference_id raw tr :
  construct_EvidenceBasedReference raw tr = (inr raw, tr).
Proof. destruct raw. reflexivity. Qed.

Lemma validate_EvidenceBasedReferences refs : forall i tr,
  validate_list construct_EvidenceBasedReference i refs tr = (inr refs, tr).
Proof.
  induction refs as [| c rest IH]; intros i tr; simpl; [reflexivity |].
  unfold bind, both, at_loc.
  rewrite construct_EvidenceBasedReference_id, IH. reflexivity.
Qed.

Lemma construct_EvidenceBasedParagraph_eq raw tr :
  construct_EvidenceBasedParagraph raw tr =
    (match ebp_references raw with
     | [] => inl (LineErrors [{| loc := [Field "references"]; err := too_short 1 0 |}])
     | _ :: _ => inr raw
     end, tr).
Proof.
  unfold construct_EvidenceBasedParagraph, bind, both, at_loc, min_length, bind, ret.
  cbn beta iota. rewrite validate_EvidenceBasedReferences.
  destruct raw as [text [| c cs]]; reflexivity.
Qed.

Lemma validate_EvidenceBasedParagraphs ps : forall i tr,
  snd (validate_list construct_EvidenceBasedParagraph i ps tr) = tr
  /\ (Forall (fun p => ebp_references p <> []) ps ->
      fst (validate_list construct_EvidenceBasedParagraph i ps tr) = inr ps)
  /\ (~ Forall (fun p => ebp_references p <> []) ps ->
      exists errs,
        fst (validate_list construct_EvidenceBasedParagraph i ps tr)
        = inl (LineErrors errs)).
Proof.
  induction ps as [| p rest IH]; intros i tr; simpl.
  - split; [reflexivity |]. split; [reflexivity |].
    intros Hn. exfalso. apply Hn. constructor.
  - destruct (IH (S i) tr) as (Htr & Hok & Hbad).
    unfold bind, both, at_loc. rewrite construct_EvidenceBasedParagraph_eq.
    destruct (ebp_references p) as [| c cs] eqn:Hrefs; cbn beta iota zeta;
    destruct (validate_list construct_EvidenceBasedParagraph (S i) rest tr)
      as [res t] eqn:Hrest;
    simpl in Htr, Hok, Hbad; subst t; simpl.
    + assert (Hn : ~ Forall (fun p => ebp_references p <> []) (p :: rest)).
      { intros Hall. apply Forall_cons in Hall as [Hp _]. exact (Hp Hrefs). }
      destruct res as [[errs | e] | xs]; simpl;
        (split; [reflexivity |]); (split; [intros Hall; exfalso; exact (Hn Hall) |]);
        intros _; eauto.
      destruct (decide (Forall (fun p => ebp_references p <> []) rest)) as [Hd | Hd].
      * specialize (Hok Hd). discriminate.
      * destruct (Hbad Hd) as [errs Herrs]. discriminate.
    + destruct res as [x | xs]; simpl; (split; [reflexivity |]).
      * split.
        -- intros Hall. apply Forall_cons in Hall as [_ Hall].
           specialize (Hok Hall). discriminate.
        -- intros Hn.
           destruct (decide (Forall (fun p => ebp_references p <> []) rest)) as [Hd | Hd].
           ++ specialize (Hok Hd). discriminate.
           ++ destruct (Hbad Hd) as [errs Herrs]. rewrite Herrs. eauto.
      * split.
        -- intros Hall. apply Forall_cons in Hall as [_ Hall].
           specialize (Hok Hall). injection Hok as ->. reflexivity.
        -- intros Hn. exfalso.
           destruct (decide (Forall (fun p => ebp_references p <> []) rest)) as [Hd | Hd].
           ++ apply Hn. constructor; [congruence | exact Hd].
           ++ destruct (Hbad Hd) as [errs Herrs]. discriminate.
Qed.

Lemma construct_EvidenceBasedResponse_trace raw tr :
  snd (construct_EvidenceBasedResponse raw tr) = tr.
Proof.
  unfold construct_EvidenceBasedResponse, function_after, bind, at_loc, try_except.
  destruct (validate_EvidenceBasedParagraphs (ebs_paragraphs raw) 0%nat tr) as (Htr & _).
  destruct (validate_list construct_EvidenceBasedParagraph 0 (ebs_paragraphs raw) tr)
    as [[x | ps] t]; simpl in *; subst t; [reflexivity |].
  unfold EB_ensure_unique_urls_across_paragraphs, ret, raise; simpl.
  destruct (EB_scan_paragraphs ps ∅) as [e | seen]; [destruct e |]; reflexivity.
Qed.

Lemma construct_EvidenceBasedResponse_well_formed raw tr :
  EB_well_formed raw ->
  fst (construct_EvidenceBasedResponse raw tr) = inr raw.
Proof.
  intros [Hne Hnd].
  unfold construct_EvidenceBasedResponse, function_after, bind, at_loc, try_except.
  destruct (validate_EvidenceBasedParagraphs (ebs_paragraphs raw) 0%nat tr)
    as (Htr & Hok & _).
  specialize (Hok Hne).
  destruct (validate_list construct_EvidenceBasedParagraph 0 (ebs_paragraphs raw) tr)
    as [res t]; simpl in *; subst res t.
  unfold EB_ensure_unique_urls_across_paragraphs, ret; simpl.
  destruct (EB_scan_paragraphs_fresh (ebs_paragraphs raw) ∅) as [seen Hseen].
  - destruct raw; exact Hnd.
  - intros u _. set_solver.
  - rewrite Hseen. destruct raw; reflexivity.
Qed.

Lemma construct_EvidenceBasedResponse_inr raw r tr tr' :
  construct_EvidenceBasedResponse raw tr = (inr r, tr') ->
  r = raw /\ EB_well_formed raw.
Proof.
  unfold construct_EvidenceBasedResponse. intros H.
  apply function_after_inr in H as (v & t & Hin & Hafter).
  apply bind_inr in Hin as (ps & t1 & Hps & Hr). injection Hr as <- <-.
  unfold at_loc in Hps.
  destruct (validate_EvidenceBasedParagraphs (ebs_paragraphs raw) 0%nat tr)
    as (_ & Hok & Hbad).
  destruct (validate_list construct_EvidenceBasedParagraph 0 (ebs_paragraphs raw) tr)
    as [[x | xs] t] eqn:Hv; [discriminate |].
  injection Hps as -> ->. simpl in Hok, Hbad.
  destruct (decide (Forall (fun p => ebp_references p <> []) (ebs_paragraphs raw)))
    as [Hd | Hd]; [| destruct (Hbad Hd) as [errs Herrs]; discriminate].
  specialize (Hok Hd). injection Hok as ->.
  unfold EB_ensure_unique_urls_across_paragraphs in Hafter. simpl in Hafter.
  destruct (EB_scan_paragraphs (ebs_paragraphs raw) ∅) as [e | seen] eqn:Hscan;
    [discriminate |].
  injection Hafter as <- _.
  apply EB_scan_paragraphs_inr in Hscan as (Hnd & _).
  destruct raw as [ps0]. simpl in *. split; [reflexivity |]. split; assumption.
Qed.

Lemma EB_succeeds_iff raw tr :
  succeeds (construct_EvidenceBasedResponse raw tr) <-> EB_well_formed raw.
Proof.
  split.
  - intros [r Hr].
    destruct (construct_EvidenceBasedResponse raw tr) as [res tr'] eqn:Hc.
    simpl in Hr. subst res.
    apply construct_EvidenceBasedResponse_inr in Hc as [_ Hwf]. exact Hwf.
  - intros Hwf. exists raw. apply construct_EvidenceBasedResponse_well_formed, Hwf.
Qed.

(** ** The evidence gatherer: facts *)

Lemma append_suffix_neq (s suffix : string) :
  suffix <> "" -> s <> s +:+ suffix.
Proof.
  intros Hne. induction s as [| c s IH]; simpl.
  - intros Heq. apply Hne. symmetry. exact Heq.
  - intros [= Heq]. exact (IH Heq).
Qed.

Lemma recorded_query_is_not_search_query motion side :
  recorded_query motion side <> search_query motion side.
Proof.
  unfold recorded_query, search_query.
  case_bool_decide; intros Heq; apply (inj (String.append _)) in Heq;
    revert Heq; apply append_suffix_neq; discriminate.
Qed.

Section EvidenceFacts.
Variable W : World.

Lemma search_web_for_evidence_trace motion side key n tr :
  exists out,
    snd (search_web_for_evidence W motion side key n tr)
    = tr ++ EvPrint ("[evidence] Searching: "
                     +:+ String.substring 0 80 (search_query motion side) +:+ "...")
         :: EvSearch (search_call motion side key n) :: out.
Proof.
  unfold search_web_for_evidence, bind, print, emit, TavilyClient_search, ret.
  fold (search_call motion side key n).
  destruct (tavily W _ (search_call motion side key n)) as [r | msg]; simpl.
  - eexists. rewrite <- !app_assoc. simpl. reflexivity.
  - exists []. rewrite <- !app_assoc. reflexivity.
Qed.

Lemma summarize_sources_extends rs motion side client model tr :
  exists out, snd (summarize_sources rs motion side client model tr) = tr ++ out.
Proof.
  destruct rs as [| r rest]; simpl.
  - exists []. unfold ret. simpl. rewrite app_nil_r. reflexivity.
  - unfold bind, print, emit, chat_completions_create. simpl.
    eexists. rewrite <- app_assoc. reflexivity.
Qed.

Lemma gather_evidence_no_key motion side key client model tr :
  truthy key = None ->
  gather_evidence W motion side key client model tr
  = (inr {| query_used := ""; sources := [] |}, tr ++ [no_key_notice]).
Proof. unfold gather_evidence. intros ->. reflexivity. Qed.

Lemma gather_evidence_with_key motion side key k client model tr ev tr' :
  truthy key = Some k ->
  gather_evidence W motion side key client model tr = (inr ev, tr') ->
  query_used ev = recorded_query motion side
  /\ EvSearch (search_call motion side k 8) ∈ tr'.
Proof.
  unfold gather_evidence. intros -> H.
  apply bind_inr in H as (rs & t & Hsearch & H).
  destruct (search_web_for_evidence_trace motion side k 8 tr) as [out Hout].
  rewrite Hsearch in Hout. simpl in Hout. subst t.
  destruct rs as [| r rest].
  - unfold bind, print, emit, ret in H. simpl in H. injection H as <- <-.
    split; [reflexivity |]. set_solver.
  - apply bind_inr in H as (summaries & t & Hsum & H).
    destruct (summarize_sources_extends (r :: rest) motion side client model
                (tr ++ EvPrint ("[evidence] Searching: "
                     +:+ String.substring 0 80 (search_query motion side) +:+ "...")
                    :: EvSearch (search_call motion side k 8) :: out))
      as [out' Hout'].
    rewrite Hsum in Hout'. simpl in Hout'. subst t.
    unfold bind, print, emit, ret in H. simpl in H. injection H as <- <-.
    split; [reflexivity |]. set_solver.
Qed.

End EvidenceFacts.

(** ** Concrete worlds: facts *)

Lemma mixed_world_rejects_dead_url :
  always_rejected (U := plain_urls) mixed_world (cite dead_url).
Proof.
  intros tr.
  rewrite (construct_Reference_parsed (U := plain_urls) mixed_world
             (cite dead_url) dead_url tr eq_refl).
  destruct (validate_url_status (U := plain_urls) mixed_world dead_url tr 404 eq_refl)
    as [Hrej _].
  rewrite Hrej by (left; reflexivity).
  eexists. reflexivity.
Qed.

(** ** Sample runs *)

Example dead_link_is_rejected :
  construct_Reference (U := plain_urls) dead_world (cite "http://a.example/") []
  = (inl (LineErrors
            [{| loc := [Field "url"];
                err := value_error
                         (ExValueError "URL 'http://a.example/' returned status 404"
                                       None) |}]),
     [EvHttp (probe HEAD "http://a.example/"); EvHttp (probe GET "http://a.example/")]).
Proof. reflexivity. Qed.

Example live_link_is_accepted :
  construct_Reference (U := plain_urls) live_world (cite "http://a.example/") []
  = (inr {| ref_title := None; ref_url := "http://a.example/" : @AnyUrl plain_urls |},
     [EvHttp (probe HEAD "http://a.example/")]).
Proof. reflexivity. Qed.

Example unreachable_host_is_rejected :
  construct_Reference (U := plain_urls) offline_world (cite "http://a.example/") []
  = (inl (LineErrors
            [{| loc := [Field "url"];
                err := value_error
                         (ExValueError "Failed to reach URL 'http://a.example/': timed out"
                                       (Some {| request_error_str := "timed out" |})) |}]),
     [EvHttp (probe HEAD "http://a.example/")]).
Proof. reflexivity. Qed.

Example two_live_paragraphs_are_accepted :
  succeeds (construct_ReferencedParagraphs (U := plain_urls) live_world
              {| raw_paragraphs := [paragraph "one" ["http://a.example/"];
                                    paragraph "two" ["http://b.example/"]] |} []).
Proof. eexists. vm_compute. reflexivity. Qed.

Example same_url_twice_is_rejected :
  result (construct_ReferencedParagraphs (U := plain_urls) live_world
            {| raw_paragraphs := [paragraph "one" ["http://a.example/"];
                                  paragraph "two" ["http://a.example/"]] |} [])
  = inl (LineErrors
           [{| loc := [];
               err := value_error
                        (ExValueError
                           "Duplicate reference URL across paragraphs is not allowed: http://a.example/"
                           None) |}]).
Proof. vm_compute. reflexivity. Qed.

(** * The claims *)

(** C1. A [Reference] built from a URL that parses sends one HEAD probe
    (10 s timeout, browser user agent, redirects followed), and one GET
    probe after it exactly when the HEAD answer has status >= 400.
    On the final status [s] construction raises exactly when [s] is 404 or
    410, or is >= 400 and neither 401 nor 403, and returns the reference
    exactly when [s] is below 400 or is 401 or 403.  When the final probe
    fails with a request error [e], construction raises a [ValueError]
    whose cause is [e]. *)
Theorem C1_reference_liveness `{U : UrlLib} (W : World) (raw : RawReference)
    (v : AnyUrl) (tr : Trace) :
  AnyUrl_parse (raw_url raw) = Some v ->
  let url := AnyUrl_str v in
  let r := construct_Reference W raw tr in
  trace_of r = tr ++ probes_sent W url tr
  /\ (forall s, final_outcome W url tr = Response s ->
        (raises r <-> rejected_status s)
        /\ (result r = inr {| ref_title := raw_title raw; ref_url := v |}
            <-> accepted_status s))
  /\ (forall e, final_outcome W url tr = HttpRaises e ->
        exists msg,
          result r = inl (LineErrors [{| loc := [Field "url"];
                                         err := value_error (ExValueError msg (Some e)) |}])).
Proof.
  intros Hp url r. subst r.
  rewrite (construct_Reference_parsed W raw v tr Hp). unfold trace_of, result; simpl.
  split; [apply validate_url_trace |]. split.
  - intros s Hf. destruct (validate_url_status W v tr s Hf) as [Hrej Hacc].
    fold url in Hrej, Hacc.
    destruct (decide (accepted_status s)) as [Ha | Ha].
    + rewrite (Hacc Ha). split; split.
      * intros [x Hx]. discriminate.
      * intros Hr. apply rejected_or_accepted in Hr. contradiction.
      * intros _. exact Ha.
      * reflexivity.
    + pose proof Ha as Hr. apply rejected_or_accepted in Hr.
      rewrite (Hrej Hr). split; split.
      * intros _. exact Hr.
      * intros _. eexists. reflexivity.
      * discriminate.
      * contradiction.
  - intros e Hf. rewrite (validate_url_request_error W v tr e Hf).
    unfold failed_to_reach. eexists. reflexivity.
Qed.

Lemma C1_reference_liveness_witness :
  trace_of (construct_Reference (U := plain_urls) guarded_world
              (cite "https://journal.example/article") [])
  = [EvHttp (probe HEAD "https://journal.example/article");
     EvHttp (probe GET "https://journal.example/article")]
  /\ succeeds (construct_Reference (U := plain_urls) guarded_world
                 (cite "https://journal.example/article") []).
Proof.
  destruct (C1_reference_liveness (U := plain_urls) guarded_world
              (cite "https://journal.example/article")
              "https://journal.example/article" [] eq_refl) as (Htr & Hst & _).
  split; [exact Htr |].
  destruct (Hst 403 eq_refl) as [_ Hacc].
  eexists. apply Hacc. right. right. reflexivity.
Defined.

(** C2. A successfully constructed [ReferencedParagraphs] or
    [EvidenceBasedResponse] cites no URL string twice across all of its
    paragraphs, and constructing either from an input that cites the same
    URL twice raises. *)
Theorem C2_reference_uniqueness `{U : UrlLib} (W : World) :
  (forall raw r tr tr',
      construct_ReferencedParagraphs W raw tr = (inr r, tr') ->
      NoDup (RP_cited_urls r))
  /\ (forall raw r tr tr',
      construct_EvidenceBasedResponse raw tr = (inr r, tr') ->
      NoDup (EB_cited_urls r))
  /\ (forall raw tr,
      ~ NoDup (raw_cited_urls raw) ->
      raises (construct_ReferencedParagraphs W raw tr))
  /\ (forall raw tr,
      ~ NoDup (EB_cited_urls raw) ->
      raises (construct_EvidenceBasedResponse raw tr)).
Proof.
  split; [| split; [| split]].
  - intros raw r tr tr'. apply RP_success_NoDup.
  - intros raw r tr tr' Hc.
    apply construct_EvidenceBasedResponse_inr in Hc as [-> [_ Hnd]]. exact Hnd.
  - intros raw tr. apply RP_duplicate_raises.
  - intros raw tr Hdup. apply raises_not_succeeds.
    intros [_ Hnd]%EB_succeeds_iff. exact (Hdup Hnd).
Qed.

Lemma C2_reference_uniqueness_witness :
  match result (construct_ReferencedParagraphs (U := plain_urls) live_world
                  {| raw_paragraphs := [paragraph "one" ["http://a.example/"];
                                        paragraph "two" ["http://b.example/"]] |} [])
  with
  | inr r => NoDup (RP_cited_urls r)
  | inl _ => False
  end
  /\ raises (construct_ReferencedParagraphs (U := plain_urls) live_world
               {| raw_paragraphs := [paragraph "one" ["http://a.example/"];
                                     paragraph "two" ["http://a.example/"]] |} [])
  /\ raises (construct_EvidenceBasedResponse
               {| ebs_paragraphs := [evidence_paragraph "one" ["http://a.example/"];
                                     evidence_paragraph "two" ["http://a.example/"]] |} []).
Proof.
  destruct (C2_reference_uniqueness (U := plain_urls) live_world)
    as (Hrp & _ & Hrp_dup & Heb_dup).
  split; [| split].
  - destruct (construct_ReferencedParagraphs (U := plain_urls) live_world
                {| raw_paragraphs := [paragraph "one" ["http://a.example/"];
                                      paragraph "two" ["http://b.example/"]] |} [])
      as [[x | r] t] eqn:Hc; unfold result; simpl.
    + vm_compute in Hc. discriminate.
    + exact (Hrp _ _ _ _ Hc).
  - apply Hrp_dup. vm_compute. intros Hnd. inversion Hnd as [| x l Hx _]; subst.
    apply Hx. left.
  - apply Heb_dup. vm_compute. intros Hnd. inversion Hnd as [| x l Hx _]; subst.
    apply Hx. left.
Defined.

(** C3. Every paragraph of a successfully constructed reference-bearing
    response has at least one reference: [ReferencedParagraphs] raises when
    a paragraph's references are empty, and [EvidenceBasedParagraph] rejects
    an empty list with a too-short error for minimum length 1. *)
Theorem C3_non_empty_citations `{U : UrlLib} (W : World) :
  (forall raw r tr tr',
      construct_ReferencedParagraphs W raw tr = (inr r, tr') ->
      Forall (fun p => (1 <= length (rp_references p))%nat) (rps_paragraphs r))
  /\ (forall raw tr p,
      p ∈ raw_paragraphs raw -> supplied_references p = [] ->
      raises (construct_ReferencedParagraphs W raw tr))
  /\ (forall raw tr,
      ebp_references raw = [] ->
      construct_EvidenceBasedParagraph raw tr
      = (inl (LineErrors [{| loc := [Field "references"]; err := too_short 1 0 |}]), tr))
  /\ (forall raw p tr tr',
      construct_EvidenceBasedParagraph raw tr = (inr p, tr') ->
      (1 <= length (ebp_references p))%nat)
  /\ (forall raw r tr tr',
      construct_EvidenceBasedResponse raw tr = (inr r, tr') ->
      Forall (fun p => (1 <= length (ebp_references p))%nat) (ebs_paragraphs r)).
Proof.
  split; [| split; [| split; [| split]]].
  - intros raw r tr tr' Hc. apply RP_success_nonempty in Hc.
    eapply Forall_impl; [exact Hc |].
    intros p Hp. simpl in Hp. destruct (rp_references p); [exfalso; apply Hp; reflexivity | simpl; lia].
  - intros raw tr p. apply RP_empty_references_raises.
  - intros raw tr Hempty. rewrite construct_EvidenceBasedParagraph_eq, Hempty.
    reflexivity.
  - intros raw p tr tr'. rewrite construct_EvidenceBasedParagraph_eq.
    destruct (ebp_references raw) eqn:Hrefs; [discriminate |].
    intros [= <- _]. rewrite Hrefs. simpl. lia.
  - intros raw r tr tr' Hc.
    apply construct_EvidenceBasedResponse_inr in Hc as [-> [Hne _]].
    eapply Forall_impl; [exact Hne |].
    intros p Hp. simpl in Hp. destruct (ebp_references p); [exfalso; apply Hp; reflexivity | simpl; lia].
Qed.

Lemma C3_non_empty_citations_witness :
  raises (construct_ReferencedParagraphs (U := plain_urls) live_world
            {| raw_paragraphs := [paragraph "one" ["http://a.example/"];
                                  paragraph "two" []] |} [])
  /\ construct_EvidenceBasedParagraph (evidence_paragraph "two" []) []
     = (inl (LineErrors [{| loc := [Field "references"]; err := too_short 1 0 |}]), []).
Proof.
  destruct (C3_non_empty_citations (U := plain_urls) live_world)
    as (_ & Hrp & Hebp & _).
  split.
  - apply (Hrp _ [] (paragraph "two" [])); [| reflexivity].
    right. left.
  - apply Hebp. reflexivity.
Defined.

(** C4 (as the code has it).  Constructing an [EvidenceBasedResponse] sends
    no probe at all: the trace is left as it was, and the response is
    accepted exactly when every paragraph has at least one reference and no
    URL is cited twice, whatever the reachability of its URLs. *)
Theorem C4_evidence_urls_not_probed (raw : EvidenceBasedResponse) (tr : Trace) :
  trace_of (construct_EvidenceBasedResponse raw tr) = tr
  /\ (result (construct_EvidenceBasedResponse raw tr) = inr raw <-> EB_well_formed raw)
  /\ (raises (construct_EvidenceBasedResponse raw tr) <-> ~ EB_well_formed raw).
Proof.
  split; [apply construct_EvidenceBasedResponse_trace |]. split.
  - split.
    + intros Hr. apply (EB_succeeds_iff raw tr). exists raw. exact Hr.
    + apply construct_EvidenceBasedResponse_well_formed.
  - rewrite raises_not_succeeds, EB_succeeds_iff. reflexivity.
Qed.

(** C4 fails as stated: a URL that the reference validator rejects at
    every probe is accepted inside an [EvidenceBasedResponse], and no
    request is sent for it. *)
Lemma C4_dead_url_accepted_in_evidence_response :
  always_rejected (U := plain_urls) mixed_world (cite dead_url)
  /\ construct_EvidenceBasedResponse
       {| ebs_paragraphs := [evidence_paragraph "claimed" [dead_url]] |} []
     = (inr {| ebs_paragraphs := [evidence_paragraph "claimed" [dead_url]] |}, []).
Proof.
  split; [exact mixed_world_rejects_dead_url | reflexivity].
Qed.

(** C5. Without a search credential ([None] or the empty string)
    [gather_evidence] returns the empty evidence bundle at once; the only
    effect is one console line, which is no network call. *)
Theorem C5_no_credential_no_network (W : World) (motion side : string)
    (client : Client) (model : string) (tr : Trace) :
  gather_evidence W motion side None client model tr
  = (inr {| query_used := ""; sources := [] |}, tr ++ [no_key_notice])
  /\ gather_evidence W motion side (Some "") client model tr
     = (inr {| query_used := ""; sources := [] |}, tr ++ [no_key_notice])
  /\ is_network_call no_key_notice = false.
Proof.
  split; [| split].
  - apply gather_evidence_no_key. reflexivity.
  - apply gather_evidence_no_key. reflexivity.
  - reflexivity.
Qed.

(** With a credential, [query_used] is the short form
    "arguments supporting: <motion>" / "arguments against: <motion>",
    which is never the query the provider was called with. *)
Lemma gather_evidence_query_mismatch (W : World) motion side key k client model
    tr ev tr' :
  truthy key = Some k ->
  gather_evidence W motion side key client model tr = (inr ev, tr') ->
  EvSearch (search_call motion side k 8) ∈ tr'
  /\ query_used ev <> sc_query (search_call motion side k 8).
Proof.
  intros Hk Hg.
  destruct (gather_evidence_with_key W motion side key k client model tr ev tr' Hk Hg)
    as [Hq Hin].
  split; [exact Hin |]. rewrite Hq. apply recorded_query_is_not_search_query.
Qed.

(** C6 at a concrete run: credential present, zero results, side con.  The
    provider is called with the query ending in
    "evidence research studies criticism"; [query_used] lacks that ending. *)
Example C6_query_used_differs_from_query_sent :
  let motion := "Social media does more harm than good" in
  let r := gather_evidence live_world motion "con" (Some "key") silent_client
             "mistral-small-latest" [] in
  result r = inr {| query_used := "arguments against: Social media does more harm than good";
                    sources := [] |}
  /\ EvSearch (search_call motion "con" "key" 8) ∈ trace_of r
  /\ sc_query (search_call motion "con" "key" 8)
     = "arguments against: Social media does more harm than good evidence research studies criticism".
Proof.
  split; [reflexivity |]. split; [| reflexivity].
  vm_compute. right. left.
Qed.

(** C7. [summarize_sources] on an empty sequence returns an empty sequence
    and leaves the trace as it was: no completion call, for every motion,
    side, client and model.  (On a non-empty sequence it does place one
    completion call.) *)
Theorem C7_summarize_nothing (motion side : string) (client : Client)
    (model : string) (tr : Trace) :
  summarize_sources [] motion side client model tr = (inr [], tr)
  /\ (forall r rest,
        exists notice call,
          trace_of (summarize_sources (r :: rest) motion side client model tr)
          = tr ++ [EvPrint notice; EvCompletion call]).
Proof.
  split.
  - reflexivity.
  - intros r rest.
    unfold summarize_sources, bind, print, emit, chat_completions_create, trace_of.
    simpl. do 2 eexists. rewrite <- app_assoc. reflexivity.
Qed.

(** C8 (as the code has it).  [ReferencedParagraphs] raises, and so yields no
    object, when a paragraph has no references, cites a reference the
    validator rejects, or a URL is cited twice.  [EvidenceBasedResponse]
    raises when a paragraph has no references or a URL is cited twice; it
    sends no probe, so reachability plays no part there. *)
Theorem C8_atomic_rejection `{U : UrlLib} (W : World) :
  (forall raw tr p,
      p ∈ raw_paragraphs raw ->
      supplied_references p = []
      \/ (exists c, c ∈ supplied_references p /\ always_rejected W c) ->
      raises (construct_ReferencedParagraphs W raw tr))
  /\ (forall raw tr,
      ~ NoDup (raw_cited_urls raw) ->
      raises (construct_ReferencedParagraphs W raw tr))
  /\ (forall raw tr p,
      p ∈ ebs_paragraphs raw -> ebp_references p = [] ->
      raises (construct_EvidenceBasedResponse raw tr))
  /\ (forall raw tr,
      ~ NoDup (EB_cited_urls raw) ->
      raises (construct_EvidenceBasedResponse raw tr))
  /\ (forall raw tr, trace_of (construct_EvidenceBasedResponse raw tr) = tr).
Proof.
  split; [| split; [| split; [| split]]].
  - intros raw tr p Hp [Hempty | (c & Hc & Hrej)].
    + eapply RP_empty_references_raises; eassumption.
    + eapply RP_rejected_reference_raises; eassumption.
  - intros raw tr. apply RP_duplicate_raises.
  - intros raw tr p Hp Hempty. apply raises_not_succeeds.
    intros [Hne _]%EB_succeeds_iff.
    rewrite Forall_forall in Hne. exact (Hne p Hp Hempty).
  - intros raw tr Hdup. apply raises_not_succeeds.
    intros [_ Hnd]%EB_succeeds_iff. exact (Hdup Hnd).
  - intros raw tr. apply construct_EvidenceBasedResponse_trace.
Qed.

Lemma C8_atomic_rejection_witness :
  raises (construct_ReferencedParagraphs (U := plain_urls) mixed_world
            {| raw_paragraphs := [paragraph "valid" ["http://live.example/"];
                                  paragraph "invalid" [dead_url]] |} [])
  /\ raises (construct_EvidenceBasedResponse
               {| ebs_paragraphs := [evidence_paragraph "valid" ["http://live.example/"];
                                     evidence_paragraph "invalid" []] |} []).
Proof.
  destruct (C8_atomic_rejection (U := plain_urls) mixed_world)
    as (Hrp & _ & Heb & _).
  split.
  - apply (Hrp _ [] (paragraph "invalid" [dead_url])).
    + right. left.
    + right. exists (cite dead_url). split; [left | exact mixed_world_rejects_dead_url].
  - apply (Heb _ [] (evidence_paragraph "invalid" [])); [| reflexivity].
    right. left.
Defined.

(** C8 fails as stated: an [EvidenceBasedResponse] with one paragraph citing
    a dead URL next to a valid paragraph is accepted whole, where the same
    input shape is rejected as [ReferencedParagraphs]. *)
Lemma C8_unreachable_evidence_reference_accepted :
  always_rejected (U := plain_urls) mixed_world (cite dead_url)
  /\ raises (construct_ReferencedParagraphs (U := plain_urls) mixed_world
               {| raw_paragraphs := [paragraph "valid" ["http://live.example/"];
                                     paragraph "invalid" [dead_url]] |} [])
  /\ construct_EvidenceBasedResponse
       {| ebs_paragraphs := [evidence_paragraph "valid" ["http://live.example/"];
                             evidence_paragraph "invalid" [dead_url]] |} []
     = (inr {| ebs_paragraphs := [evidence_paragraph "valid" ["http://live.example/"];
                                  evidence_paragraph "invalid" [dead_url]] |}, []).
Proof.
  split; [exact mixed_world_rejects_dead_url |]. split; [| reflexivity].
  eexists. vm_compute. reflexivity.
Qed.

(** C9. A standalone [ReferencedParagraph] without references is
    constructed for every text, with references defaulting to the empty
    list and nothing probed; a [ReferencedParagraphs] built around such a
    paragraph raises. *)
Theorem C9_standalone_paragraph_may_be_bare `{U : UrlLib} (W : World)
    (text : string) (tr : Trace) :
  construct_ReferencedParagraph W {| raw_text := text; raw_references := None |} tr
  = (inr {| rp_text := text; rp_references := [] |}, tr)
  /\ construct_ReferencedParagraph W {| raw_text := text; raw_references := Some [] |} tr
     = (inr {| rp_text := text; rp_references := [] |}, tr)
  /\ construct_ReferencedParagraphs W
       {| raw_paragraphs := [ {| raw_text := text; raw_references := None |} ] |} tr
     = (inl (LineErrors
               [{| loc := [];
                   err := value_error
                            (ExValueError "paragraphs.0.references must not be empty"
                                          None) |}]), tr)
  /\ (forall before after,
        raises (construct_ReferencedParagraphs W
                  {| raw_paragraphs :=
                       before ++ {| raw_text := text; raw_references := None |} :: after |}
                  tr)).
Proof.
  split; [reflexivity |]. split; [reflexivity |]. split; [reflexivity |].
  intros before after.
  apply (RP_empty_references_raises W _ tr {| raw_text := text; raw_references := None |});
    [| reflexivity].
  simpl. apply elem_of_app. right. left.
Qed.

(** C10. An [EvidenceBasedReference] is constructed unchanged from every
    url string, with nothing checked.  A [Reference] whose url does not
    parse as [AnyUrl] is rejected with a URL-parsing error before any probe
    is sent, and a [Reference] that is constructed has a url that parsed. *)
Theorem C10_plain_string_url_versus_AnyUrl `{U : UrlLib} (W : World) :
  (forall (url : string) title claim tr,
      construct_EvidenceBasedReference
        {| ebr_url := url; ebr_title := title; ebr_supporting_claim := claim |} tr
      = (inr {| ebr_url := url; ebr_title := title; ebr_supporting_claim := claim |}, tr))
  /\ (forall raw tr,
      AnyUrl_parse (raw_url raw) = None ->
      construct_Reference W raw tr
      = (inl (LineErrors [{| loc := [Field "url"]; err := url_parsing |}]), tr))
  /\ (forall raw tr,
      succeeds (construct_Reference W raw tr) ->
      exists v, AnyUrl_parse (raw_url raw) = Some v).
Proof.
  split; [| split].
  - intros url title claim tr. reflexivity.
  - intros raw tr. apply construct_Reference_unparsed.
  - intros raw tr [c Hc].
    destruct (construct_Reference W raw tr) as [res tr'] eqn:Hcon.
    simpl in Hc. subst res.
    apply construct_Reference_inr in Hcon as [Hp _]. eauto.
Qed.

Lemma C10_plain_string_url_versus_AnyUrl_witness :
  construct_Reference (U := plain_urls) live_world (cite "not a url") []
  = (inl (LineErrors [{| loc := [Field "url"]; err := url_parsing |}]), [])
  /\ construct_EvidenceBasedReference (evidence_ref "not a url") []
     = (inr (evidence_ref "not a url"), []).
Proof.
  destruct (C10_plain_string_url_versus_AnyUrl (U := plain_urls) live_world)
    as (Hebr & Hunparsed & _).
  split.
  - apply Hunparsed. reflexivity.
  - apply Hebr.
Defined.

(** * Further properties *)

(** ** The model validators on their own *)

Section ValidatorShape.
Context `{U : UrlLib}.

Lemma RP_scan_references_fresh refs : forall seen,
  NoDup (map (fun c => AnyUrl_str (ref_url c)) refs) ->
  (forall u, u ∈ map (fun c => AnyUrl_str (ref_url c)) refs -> u ∉ seen) ->
  exists seen', RP_scan_references refs seen = inr seen'.
Proof.
  induction refs as [| c rest IH]; intros seen Hnd Hfresh; simpl in *.
  - eauto.
  - apply NoDup_cons in Hnd as [Hc Hnd].
    rewrite bool_decide_eq_false_2 by (apply Hfresh; left).
    apply IH; [exact Hnd |].
    intros u Hu [->%elem_of_singleton | Hs]%elem_of_union; [exact (Hc Hu) |].
    apply (Hfresh u); [right; exact Hu | exact Hs].
Qed.

Lemma RP_scan_paragraphs_fresh ps : forall idx seen,
  Forall (fun p => rp_references p <> []) ps ->
  NoDup (RP_cited_urls {| rps_paragraphs := ps |}) ->
  (forall u, u ∈ RP_cited_urls {| rps_paragraphs := ps |} -> u ∉ seen) ->
  exists seen', RP_scan_paragraphs idx ps seen = inr seen'.
Proof.
  unfold RP_cited_urls; simpl.
  induction ps as [| p rest IH]; intros idx seen Hne Hnd Hfresh; simpl in *.
  - eauto.
  - apply Forall_cons in Hne as [Hp Hne].
    apply NoDup_app in Hnd as (Hnd1 & Hdisj & Hnd2).
    destruct (RP_scan_references_fresh (rp_references p) seen Hnd1) as [mid Hmid].
    { intros u Hu. apply Hfresh. apply elem_of_app. left. exact Hu. }
    destruct (rp_references p) as [| c cs] eqn:Hrefs; [exfalso; apply Hp; reflexivity |].
    rewrite Hmid.
    apply RP_scan_references_inr in Hmid as (_ & _ & Hmid).
    apply IH; [exact Hne | exact Hnd2 |].
    intros u Hu [Hu1 | Hs]%Hmid.
    + exact (Hdisj u Hu1 Hu).
    + apply (Hfresh u); [apply elem_of_app; right; exact Hu | exact Hs].
Qed.

(** Where a failing scan of one paragraph stopped. *)
Lemma RP_scan_references_inl refs : forall seen e,
  RP_scan_references refs seen = inl e ->
  exists u l1 l2,
    e = duplicate_message u
    /\ map (fun c => AnyUrl_str (ref_url c)) refs = l1 ++ u :: l2
    /\ NoDup l1
    /\ (forall x, x ∈ l1 -> x ∉ seen)
    /\ (u ∈ seen \/ u ∈ l1).
Proof.
  induction refs as [| c rest IH]; intros seen e H; simpl in *; [discriminate |].
  case_bool_decide as Hin.
  - injection H as <-.
    exists (AnyUrl_str (ref_url c)), [], (map (fun c => AnyUrl_str (ref_url c)) rest).
    split; [reflexivity |]. split; [reflexivity |]. split; [constructor |].
    split; [intros x Hx; inversion Hx | left; exact Hin].
  - apply IH in H as (u & l1 & l2 & He & Hsplit & Hnd & Hfresh & Hu).
    exists u, (AnyUrl_str (ref_url c) :: l1), l2.
    split; [exact He |]. split; [rewrite Hsplit; reflexivity |].
    split; [| split].
    + constructor; [| exact Hnd]. intros Hc. apply (Hfresh _ Hc). set_solver.
    + intros x [-> | Hx]%elem_of_cons; [exact Hin |].
      intros Hs. apply (Hfresh _ Hx). set_solver.
    + destruct Hu as [[->%elem_of_singleton | Hs]%elem_of_union | Hl].
      * right. left.
      * left. exact Hs.
      * right. right. exact Hl.
Qed.

Lemma RP_scan_paragraphs_inl ps : forall idx seen e,
  RP_scan_paragraphs idx ps seen = inl e ->
  (exists i p,
      ps !! i = Some p /\ rp_references p = []
      /\ e = empty_references_message (idx + i)
      /\ Forall (fun q => rp_references q <> []) (take i ps))
  \/ (exists u l1 l2,
      e = duplicate_message u
      /\ RP_cited_urls {| rps_paragraphs := ps |} = l1 ++ u :: l2
      /\ NoDup l1
      /\ (forall x, x ∈ l1 -> x ∉ seen)
      /\ (u ∈ seen \/ u ∈ l1)).
Proof.
  unfold RP_cited_urls; simpl.
  induction ps as [| p rest IH]; intros idx seen e H; simpl in *; [discriminate |].
  destruct (rp_references p) as [| c cs] eqn:Hrefs.
  - injection H as <-. left. exists 0%nat, p.
    split; [reflexivity |]. split; [exact Hrefs |].
    split; [rewrite Nat.add_0_r; reflexivity | constructor].
  - destruct (RP_scan_references (c :: cs) seen) as [e' | mid] eqn:Hscan.
    + injection H as <-. right.
      apply RP_scan_references_inl in Hscan as (u & l1 & l2 & He & Hsplit & Hrest).
      exists u, l1, (l2 ++ flat_map
                       (fun p => map (fun c => AnyUrl_str (ref_url c)) (rp_references p))
                       rest).
      split; [exact He |]. split; [| exact Hrest].
      rewrite Hsplit, <- app_assoc. reflexivity.
    + apply RP_scan_references_inr in Hscan as (Hnd1 & Hfresh1 & Hmid).
      apply IH in H as [(i & q & Hq & Hempty & He & Hbefore)
                       | (u & l1 & l2 & He & Hsplit & Hnd & Hfresh & Hu)].
      * left. exists (S i), q. split; [exact Hq |]. split; [exact Hempty |].
        split; [rewrite He; replace (idx + S i)%nat with (S idx + i)%nat by lia;
                reflexivity |].
        simpl. constructor; [congruence | exact Hbefore].
      * right.
        exists u, (map (fun c => AnyUrl_str (ref_url c)) (c :: cs) ++ l1), l2.
        split; [exact He |]. split; [rewrite Hsplit, <- app_assoc; reflexivity |].
        split; [| split].
        -- apply NoDup_app. split; [exact Hnd1 |]. split; [| exact Hnd].
           intros x Hx1 Hx2. apply (Hfresh _ Hx2). apply Hmid. left. exact Hx1.
        -- intros x [Hx | Hx]%elem_of_app; [apply Hfresh1; exact Hx |].
           intros Hs. apply (Hfresh _ Hx). apply Hmid. right. exact Hs.
        -- destruct Hu as [[Hu | Hu]%Hmid | Hu].
           ++ right. apply elem_of_app. left. exact Hu.
           ++ left. exact Hu.
           ++ right. apply elem_of_app. right. exact Hu.
Qed.



End ValidatorShape.



(** X1. The model validator of [ReferencedParagraphs] returns the object
    unchanged, touching nothing, exactly when every paragraph has a
    reference and the cited URL strings are pairwise distinct; in every
    other case it raises. *)
Theorem RP_validator_accepts_iff `{U : UrlLib} (self : ReferencedParagraphs) (tr : Trace) :
  (RP_ensure_unique_urls_across_paragraphs self tr = (inr self, tr)
   <-> Forall (fun p => rp_references p <> []) (rps_paragraphs self)
       /\ NoDup (RP_cited_urls self))
  /\ (raises (RP_ensure_unique_urls_across_paragraphs self tr)
      <-> ~ (Forall (fun p => rp_references p <> []) (rps_paragraphs self)
             /\ NoDup (RP_cited_urls self))).
Proof.
  assert (Hiff : RP_ensure_unique_urls_across_paragraphs self tr = (inr self, tr)
                 <-> Forall (fun p => rp_references p <> []) (rps_paragraphs self)
                     /\ NoDup (RP_cited_urls self)).
  { unfold RP_ensure_unique_urls_across_paragraphs. split.
    - destruct (RP_scan_paragraphs 0 (rps_paragraphs self) ∅) as [e | seen] eqn:Hscan;
        [discriminate |].
      intros _. apply RP_scan_paragraphs_inr in Hscan as (Hne & Hnd & _).
      destruct self. split; assumption.
    - intros [Hne Hnd].
      destruct (RP_scan_paragraphs_fresh (rps_paragraphs self) 0%nat ∅ Hne) as [seen Hs].
      + destruct self. exact Hnd.
      + intros u _. set_solver.
      + rewrite Hs. reflexivity. }
  split; [exact Hiff |].
  rewrite <- Hiff, raises_not_succeeds. unfold succeeds.
  unfold RP_ensure_unique_urls_across_paragraphs.
  destruct (RP_scan_paragraphs 0 (rps_paragraphs self) ∅); simpl; split.
  - intros _ [=].
  - intros _ [a [=]].
  - intros Hn _. apply Hn. eauto.
  - intros Hn _. apply Hn. reflexivity.
Qed.

(** X2. The model validator of [EvidenceBasedResponse] checks uniqueness
    only: it returns the object unchanged exactly when no URL is cited
    twice, also when a paragraph has no references at all. *)
Theorem EB_validator_accepts_iff (self : EvidenceBasedResponse) (tr : Trace) :
  EB_ensure_unique_urls_across_paragraphs self tr = (inr self, tr)
  <-> NoDup (EB_cited_urls self).
Proof.
  unfold EB_ensure_unique_urls_across_paragraphs. split.
  - destruct (EB_scan_paragraphs (ebs_paragraphs self) ∅) as [e | seen] eqn:Hscan;
      [discriminate |].
    intros _. apply EB_scan_paragraphs_inr in Hscan as (Hnd & _).
    destruct self. exact Hnd.
  - intros Hnd.
    destruct (EB_scan_paragraphs_fresh (ebs_paragraphs self) ∅) as [seen Hs].
    + destruct self. exact Hnd.
    + intros u _. set_solver.
    + rewrite Hs. reflexivity.
Qed.

(** X3. When the model validator of [ReferencedParagraphs] raises, the
    error tells the truth: either it names the index of the first paragraph
    without references, or it names a URL that was already cited earlier in
    the response, all citations before the repeated one being distinct. *)
Theorem RP_validator_error_is_sound `{U : UrlLib} (self : ReferencedParagraphs)
    (tr : Trace) (e : Exn) :
  fst (RP_ensure_unique_urls_across_paragraphs self tr) = inl e ->
  (exists i p,
      rps_paragraphs self !! i = Some p /\ rp_references p = []
      /\ e = empty_references_message i
      /\ Forall (fun q => rp_references q <> []) (take i (rps_paragraphs self)))
  \/ (exists u l1 l2,
      e = duplicate_message u
      /\ RP_cited_urls self = l1 ++ u :: l2
      /\ NoDup l1 /\ u ∈ l1).
Proof.
  unfold RP_ensure_unique_urls_across_paragraphs.
  destruct (RP_scan_paragraphs 0 (rps_paragraphs self) ∅) as [e' | seen] eqn:Hscan;
    [| discriminate].
  intros [= <-].
  apply RP_scan_paragraphs_inl in Hscan
    as [(i & p & Hp & Hempty & He & Hbefore)
       | (u & l1 & l2 & He & Hsplit & Hnd & _ & [Hu | Hu])].
  - left. exists i, p. simpl in He. auto.
  - set_solver.
  - right. exists u, l1, l2. destruct self. auto.
Qed.

Lemma RP_validator_error_is_sound_witness :
  exists u l1 l2,
    RP_cited_urls (U := plain_urls)
      {| rps_paragraphs := [plain_paragraph "one" ["http://a.example/"];
                            plain_paragraph "two" ["http://a.example/"]] |}
    = l1 ++ u :: l2 /\ u ∈ l1.
Proof.
  destruct (RP_validator_error_is_sound (U := plain_urls)
              {| rps_paragraphs := [plain_paragraph "one" ["http://a.example/"];
                                    plain_paragraph "two" ["http://a.example/"]] |}
              [] (duplicate_message "http://a.example/") eq_refl)
    as [(i & p & Hp & Hempty & _) | (u & l1 & l2 & _ & Hsplit & _ & Hu)].
  - exfalso. destruct i as [| [| i]]; simpl in Hp;
      [injection Hp as <-; discriminate | injection Hp as <-; discriminate | discriminate].
  - exists u, l1, l2. split; assumption.
Defined.

(** ** Failures are validation errors *)

Lemma ret_fails_with_line_errors {A} (a : A) : fails_with_line_errors (ret a).
Proof. intros tr x Hx. discriminate. Qed.

Lemma line_error_fails_with_line_errors {A} (t : ErrorType) :
  fails_with_line_errors (line_error (A := A) t).
Proof. intros tr x [= <-]. eexists. split; [reflexivity | discriminate]. Qed.



Lemma bind_fails_with_line_errors {A B} (m : Validation A) (k : A -> Validation B) :
  fails_with_line_errors m -> (forall a, fails_with_line_errors (k a)) ->
  fails_with_line_errors (bind m k).
Proof.
  intros Hm Hk tr x. unfold bind. specialize (Hm tr).
  destruct (m tr) as [[y | a] t]; simpl in *.
  - intros [= <-]. apply Hm. reflexivity.
  - apply Hk.
Qed.



Lemma min_length_fails_with_line_errors {A} n (v : Validation (list A)) :
  fails_with_line_errors v -> fails_with_line_errors (min_length n v).
Proof.
  intros Hv. unfold min_length. apply bind_fails_with_line_errors; [exact Hv |].
  intros xs. destruct (length xs <? n)%nat.
  - apply line_error_fails_with_line_errors.
  - apply ret_fails_with_line_errors.
Qed.

Section ReferencedShape.
Context `{U : UrlLib}.
Variable W : World.




End ReferencedShape.




(** ** Which probes a construction sends *)



Lemma probes_line_error {A} t : probes (line_error (A := A) t) [].
Proof.
  intros tr. exists []. unfold line_error, raise; simpl. rewrite app_nil_r.
  split; [reflexivity |]. split; [constructor | reflexivity].
Qed.






Section ProbeAccounting.
Context `{U : UrlLib}.
Variable W : World.





End ProbeAccounting.


(** X6. Uniqueness is judged on the parsed URL's [str()]: two citations
    whose raw strings differ but parse to URLs with the same string form
    make construction raise. *)
Theorem ReferencedParagraphs_rejects_equal_after_parsing `{U : UrlLib} (W : World)
    (raw : RawReferencedParagraphs) (tr : Trace) (i j : nat) (s1 s2 u : string) :
  i <> j ->
  raw_cited_urls raw !! i = Some s1 ->
  raw_cited_urls raw !! j = Some s2 ->
  parses_to s1 u -> parses_to s2 u ->
  raises (construct_ReferencedParagraphs W raw tr).
Proof.
  intros Hij Hi Hj H1 H2. apply raises_not_succeeds. intros [r Hr].
  destruct (construct_ReferencedParagraphs W raw tr) as [res tr'] eqn:Hc.
  simpl in Hr. subst res.
  pose proof (construct_ReferencedParagraphs_urls W raw r tr tr' Hc) as Hurls.
  pose proof (RP_success_NoDup W raw r tr tr' Hc) as Hnd.
  destruct (Forall2_lookup_l _ _ _ _ _ Hurls Hi) as (u1 & Hu1 & Hp1).
  destruct (Forall2_lookup_l _ _ _ _ _ Hurls Hj) as (u2 & Hu2 & Hp2).
  rewrite (parses_to_functional _ _ _ Hp1 H1) in Hu1.
  rewrite (parses_to_functional _ _ _ Hp2 H2) in Hu2.
  exact (Hij (NoDup_lookup _ _ _ _ Hnd Hu1 Hu2)).
Qed.

Lemma ReferencedParagraphs_rejects_equal_after_parsing_witness :
  raises (construct_ReferencedParagraphs (U := slashed_urls) live_world
            {| raw_paragraphs := [paragraph "one" ["http://a.example"];
                                  paragraph "two" ["http://a.example/"]] |} []).
Proof.
  apply (ReferencedParagraphs_rejects_equal_after_parsing (U := slashed_urls) live_world
           _ [] 0 1 "http://a.example" "http://a.example/" "http://a.example/").
  - lia.
  - reflexivity.
  - reflexivity.
  - exists "http://a.example". split; reflexivity.
  - exists "http://a.example/". split; reflexivity.
Defined.

(** ** The evidence pipeline, step by step *)

Section PipelineFacts.
Variable W : World.

Lemma search_web_for_evidence_eq motion side key n tr :
  search_web_for_evidence W motion side key n tr =
    match tavily W (tr ++ [searching_notice motion side]) (search_call motion side key n) with
    | SearchReturns resp =>
        let results := map SearchResult_of_hit (default [] (resp_results resp)) in
        (inr results,
         tr ++ [searching_notice motion side; EvSearch (search_call motion side key n);
                found_notice (length results)])
    | SearchRaises msg =>
        (inl (ExProviderError msg),
         tr ++ [searching_notice motion side; EvSearch (search_call motion side key n)])
    end.
Proof.
  unfold search_web_for_evidence, bind, print, emit, TavilyClient_search, ret.
  fold (search_call motion side key n). fold (searching_notice motion side).
  destruct (tavily W _ (search_call motion side key n)) as [r | msg]; simpl;
    rewrite <- !app_assoc; reflexivity.
Qed.

Lemma summarize_sources_eq r rest motion side client model tr :
  summarize_sources (r :: rest) motion side client model tr =
    let call := completion_call (r :: rest) motion side model in
    let tr1 := tr ++ [summarizing_notice (length (r :: rest))] in
    (match client tr1 call with
     | CompletionReturns srcs => inr srcs
     | CompletionRaises msg => inl (ExProviderError msg)
     end, tr ++ [summarizing_notice (length (r :: rest)); EvCompletion call]).
Proof.
  unfold summarize_sources, bind, print, emit, chat_completions_create.
  simpl. rewrite <- app_assoc. reflexivity.
Qed.

(** The whole run with a credential, read off the two provider answers. *)
Lemma gather_evidence_eq motion side key k client model tr :
  truthy key = Some k ->
  gather_evidence W motion side key client model tr =
    let call := search_call motion side k 8 in
    let tr1 := tr ++ [searching_notice motion side] in
    match tavily W tr1 call with
    | SearchRaises msg => (inl (ExProviderError msg), tr1 ++ [EvSearch call])
    | SearchReturns resp =>
        match map SearchResult_of_hit (default [] (resp_results resp)) with
        | [] =>
            (inr {| query_used := recorded_query motion side; sources := [] |},
             tr1 ++ [EvSearch call; found_notice 0;
                     EvPrint "[evidence] No search results found"])
        | r :: rest =>
            let n := length (r :: rest) in
            let ccall := completion_call (r :: rest) motion side model in
            let tr2 := tr1 ++ [EvSearch call; found_notice n; summarizing_notice n] in
            match client tr2 ccall with
            | CompletionReturns srcs =>
                (inr {| query_used := recorded_query motion side; sources := srcs |},
                 tr2 ++ [EvCompletion ccall; gathered_notice (length srcs)])
            | CompletionRaises msg =>
                (inl (ExProviderError msg), tr2 ++ [EvCompletion ccall])
            end
        end
    end.
Proof.
  intros Hk. unfold gather_evidence. rewrite Hk. unfold bind at 1.
  rewrite search_web_for_evidence_eq.
  destruct (tavily W (tr ++ [searching_notice motion side]) (search_call motion side k 8))
    as [resp | msg]; cbn beta iota zeta.
  - destruct (map SearchResult_of_hit (default [] (resp_results resp))) as [| r rest].
    + unfold bind, print, emit, ret. simpl. rewrite <- !app_assoc. reflexivity.
    + unfold bind at 1. rewrite summarize_sources_eq. cbn beta iota zeta.
      replace ((tr ++ [searching_notice motion side]) ++
               [EvSearch (search_call motion side k 8); found_notice (length (r :: rest));
                summarizing_notice (length (r :: rest))])
        with ((tr ++ [searching_notice motion side; EvSearch (search_call motion side k 8);
                      found_notice (length (r :: rest))])
              ++ [summarizing_notice (length (r :: rest))])
        by (rewrite <- !app_assoc; reflexivity).
      destruct (client _ (completion_call (r :: rest) motion side model)) as [srcs | msg].
      * unfold bind, print, emit, ret. cbn beta iota zeta.
        rewrite <- !app_assoc. reflexivity.
      * rewrite <- !app_assoc. reflexivity.
  - rewrite <- !app_assoc. reflexivity.
Qed.

End PipelineFacts.

(** X7. A failure of the search provider is not retried and not caught:
    with a credential, [gather_evidence] raises the provider's error right
    after the one search call; nothing is summarised and no further line is
    printed. *)
Theorem search_failure_propagates (W : World) (motion side : string)
    (key : option string) (k : string) (client : Client) (model : string)
    (tr : Trace) (msg : string) :
  truthy key = Some k ->
  tavily W (tr ++ [searching_notice motion side]) (search_call motion side k 8)
  = SearchRaises msg ->
  gather_evidence W motion side key client model tr
  = (inl (ExProviderError msg),
     tr ++ [searching_notice motion side; EvSearch (search_call motion side k 8)]).
Proof.
  intros Hk Hs. rewrite (gather_evidence_eq W motion side key k client model tr Hk).
  cbn zeta. rewrite Hs, <- app_assoc. reflexivity.
Qed.

Lemma search_failure_propagates_witness :
  gather_evidence search_down_world "Zoos should be closed" "pro" (Some "key")
    silent_client "mistral-small-latest" []
  = (inl (ExProviderError "503 Service Unavailable"),
     [searching_notice "Zoos should be closed" "pro";
      EvSearch (search_call "Zoos should be closed" "pro" "key" 8)]).
Proof.
  apply (search_failure_propagates search_down_world "Zoos should be closed" "pro"
           (Some "key") "key" silent_client "mistral-small-latest" []
           "503 Service Unavailable"); reflexivity.
Defined.

(** X8. A failure of the completion provider while summarising is
    propagated as well: [gather_evidence] raises it after exactly one
    completion call, and the closing "Gathered ..." line is not printed. *)
Theorem summarization_failure_propagates (W : World) (motion side : string)
    (key : option string) (k : string) (client : Client) (model : string)
    (tr : Trace) (resp : SearchResponse) (r : SearchResult) (rest : list SearchResult)
    (msg : string) :
  truthy key = Some k ->
  tavily W (tr ++ [searching_notice motion side]) (search_call motion side k 8)
  = SearchReturns resp ->
  map SearchResult_of_hit (default [] (resp_results resp)) = r :: rest ->
  client (tr ++ [searching_notice motion side; EvSearch (search_call motion side k 8);
                 found_notice (length (r :: rest));
                 summarizing_notice (length (r :: rest))])
         (completion_call (r :: rest) motion side model)
  = CompletionRaises msg ->
  gather_evidence W motion side key client model tr
  = (inl (ExProviderError msg),
     tr ++ [searching_notice motion side; EvSearch (search_call motion side k 8);
            found_notice (length (r :: rest)); summarizing_notice (length (r :: rest));
            EvCompletion (completion_call (r :: rest) motion side model)]).
Proof.
  intros Hk Hs Hmap Hc.
  rewrite (gather_evidence_eq W motion side key k client model tr Hk).
  cbn zeta. rewrite Hs, Hmap. rewrite <- !app_assoc. simpl.
  simpl in Hc. rewrite Hc. reflexivity.
Qed.

Lemma summarization_failure_propagates_witness :
  result (gather_evidence one_hit_world "Zoos should be closed" "pro" (Some "key")
            failing_client "mistral-small-latest" [])
  = inl (ExProviderError "schema validation failed").
Proof.
  unfold result.
  rewrite (summarization_failure_propagates one_hit_world "Zoos should be closed" "pro"
             (Some "key") "key" failing_client "mistral-small-latest" []
             {| resp_results := Some [one_hit] |} (SearchResult_of_hit one_hit) []
             "schema validation failed"); reflexivity.
Defined.

(** X9. The network calls of one [gather_evidence] run, in order: none
    without a credential; otherwise one search call, followed by one
    completion call exactly when the search returned at least one hit.
    There is never a second search, a second completion call, or an HTTP
    probe. *)
Theorem gather_evidence_network_calls (W : World) (motion side : string)
    (key : option string) (client : Client) (model : string) (tr : Trace) :
  exists out,
    trace_of (gather_evidence W motion side key client model tr) = tr ++ out
    /\ List.filter is_network_call out
       = match truthy key with
         | None => []
         | Some k =>
             EvSearch (search_call motion side k 8)
             :: match map SearchResult_of_hit
                        (hits_of (tavily W (tr ++ [searching_notice motion side])
                                    (search_call motion side k 8))) with
                | [] => []
                | r :: rest => [EvCompletion (completion_call (r :: rest) motion side model)]
                end
         end.
Proof.
  destruct (truthy key) as [k |] eqn:Hk.
  - rewrite (gather_evidence_eq W motion side key k client model tr Hk). cbn zeta.
    destruct (tavily W (tr ++ [searching_notice motion side]) (search_call motion side k 8))
      as [resp | msg]; simpl.
    + destruct (map SearchResult_of_hit (default [] (resp_results resp))) as [| r rest].
      * eexists. rewrite <- !app_assoc. split; reflexivity.
      * destruct (client _ (completion_call (r :: rest) motion side model));
          eexists; rewrite <- !app_assoc; split; reflexivity.
    + eexists. rewrite <- !app_assoc. split; reflexivity.
  - rewrite (gather_evidence_no_key W motion side key client model tr Hk).
    eexists. split; reflexivity.
Qed.

(** X10. The summaries come back exactly as the completion client gave
    them: [gather_evidence] neither filters nor checks them, so a summary
    whose URL is in no search result is returned like any other. *)
Theorem summaries_are_returned_verbatim (W : World) (motion side : string)
    (key : option string) (k : string) (client : Client) (model : string)
    (tr : Trace) (resp : SearchResponse) (r : SearchResult) (rest : list SearchResult)
    (srcs : list SourceSummary) :
  truthy key = Some k ->
  tavily W (tr ++ [searching_notice motion side]) (search_call motion side k 8)
  = SearchReturns resp ->
  map SearchResult_of_hit (default [] (resp_results resp)) = r :: rest ->
  client (tr ++ [searching_notice motion side; EvSearch (search_call motion side k 8);
                 found_notice (length (r :: rest));
                 summarizing_notice (length (r :: rest))])
         (completion_call (r :: rest) motion side model)
  = CompletionReturns srcs ->
  result (gather_evidence W motion side key client model tr)
  = inr {| query_used := recorded_query motion side; sources := srcs |}.
Proof.
  intros Hk Hs Hmap Hc.
  rewrite (gather_evidence_eq W motion side key k client model tr Hk).
  cbn zeta. rewrite Hs, Hmap. rewrite <- !app_assoc. simpl.
  simpl in Hc. rewrite Hc. reflexivity.
Qed.

Lemma summaries_are_returned_verbatim_witness :
  result (gather_evidence one_hit_world "Zoos should be closed" "pro" (Some "key")
            fabricating_client "mistral-small-latest" [])
  = inr {| query_used := "arguments supporting: Zoos should be closed";
           sources := [fabricated_summary] |}
  /\ ss_url fabricated_summary ∉ [sr_url (SearchResult_of_hit one_hit)].
Proof.
  split.
  - apply (summaries_are_returned_verbatim one_hit_world "Zoos should be closed" "pro"
             (Some "key") "key" fabricating_client "mistral-small-latest" []
             {| resp_results := Some [one_hit] |} (SearchResult_of_hit one_hit) []
             [fabricated_summary]); reflexivity.
  - intros Hin. apply elem_of_cons in Hin as [Heq | Hin]; [discriminate | inversion Hin].
Defined.

(** X12. Only the exact string "pro" selects the supporting query: every
    other side value ("con", but also "Pro", "PRO" or the empty string)
    searches, and records, the opposing query. *)
Theorem any_side_but_pro_is_con (W : World) (motion side key : string)
    (max_results : Z) (tr : Trace) :
  side <> "pro" ->
  search_web_for_evidence W motion side key max_results tr
  = search_web_for_evidence W motion "con" key max_results tr
  /\ sc_query (search_call motion side key max_results)
     = "arguments against: " +:+ motion +:+ " evidence research studies criticism"
  /\ recorded_query motion side = "arguments against: " +:+ motion.
Proof.
  intros Hside.
  assert (Hq : search_query motion side = search_query motion "con").
  { unfold search_query. rewrite bool_decide_eq_false_2 by exact Hside. reflexivity. }
  split; [| split].
  - unfold search_web_for_evidence. rewrite Hq. reflexivity.
  - simpl. rewrite Hq. reflexivity.
  - unfold recorded_query. rewrite bool_decide_eq_false_2 by exact Hside. reflexivity.
Qed.

Lemma any_side_but_pro_is_con_witness :
  sc_query (search_call "Zoos should be closed" "Pro" "key" 8)
  = "arguments against: Zoos should be closed evidence research studies criticism".
Proof.
  destruct (any_side_but_pro_is_con live_world "Zoos should be closed" "Pro" "key" 8 [])
    as (_ & Hq & _); [discriminate | exact Hq].
Defined.

(** ** What the completion model is shown *)

Lemma append_cons c (a b : string) : String c a +:+ b = String c (a +:+ b).
Proof. reflexivity. Qed.

Lemma append_nil_l (a : string) : "" +:+ a = a.
Proof. reflexivity. Qed.

Lemma append_nil_r (a : string) : a +:+ "" = a.
Proof.
  induction a as [| c a IH]; [reflexivity |]. rewrite append_cons, IH. reflexivity.
Qed.

Lemma append_assoc (a b c : string) : (a +:+ b) +:+ c = a +:+ (b +:+ c).
Proof.
  induction a as [| x a IH]; [reflexivity |]. rewrite !append_cons, IH. reflexivity.
Qed.

Lemma concat_cons_cons sep (x y : string) ys :
  String.concat sep (x :: y :: ys) = x +:+ sep +:+ String.concat sep (y :: ys).
Proof. reflexivity. Qed.

Lemma concat_contains sep (l : list string) : forall k b,
  l !! k = Some b -> contains (String.concat sep l) b.
Proof.
  induction l as [| x xs IH]; intros k b Hk; [discriminate |].
  destruct k as [| k]; simpl in Hk.
  - injection Hk as ->. destruct xs as [| y ys].
    + exists "", "". simpl. rewrite append_nil_l, append_nil_r. reflexivity.
    + exists "", (sep +:+ String.concat sep (y :: ys)).
      rewrite concat_cons_cons, append_nil_l. reflexivity.
  - destruct xs as [| y ys]; [discriminate |].
    destruct (IH k b Hk) as (before & after & Heq).
    exists (x +:+ sep +:+ before), after.
    rewrite concat_cons_cons, Heq, !append_assoc. reflexivity.
Qed.

Lemma source_blocks_lookup rs : forall i k r,
  rs !! k = Some r -> source_blocks i rs !! k = Some (source_block (i + k) r).
Proof.
  induction rs as [| x xs IH]; intros i k r Hk; [discriminate |].
  destruct k as [| k]; simpl in *.
  - injection Hk as ->. rewrite Nat.add_0_r. reflexivity.
  - rewrite (IH (S i) k r Hk). f_equal. f_equal. lia.
Qed.

(** X11. Every search result handed to [summarize_sources] is shown to the
    completion model verbatim: the user message of the one completion call
    contains, for the k-th result, the block "Source k+1:" with its title,
    its exact URL and its content. *)
Theorem summarizer_shows_every_source (search_results : list SearchResult)
    (motion side : string) (client : Client) (model : string) (tr : Trace)
    (k : nat) (r : SearchResult) :
  search_results !! k = Some r ->
  exists call system user,
    EvCompletion call
      ∈ trace_of (summarize_sources search_results motion side client model tr)
    /\ cc_messages call = [system; user]
    /\ role user = "user"
    /\ contains (content user) (source_block k r).
Proof.
  intros Hk. destruct search_results as [| x xs]; [discriminate |].
  rewrite summarize_sources_eq. cbn zeta. unfold trace_of. cbn [snd].
  exists (completion_call (x :: xs) motion side model),
    {| role := "system"; content := system_prompt motion side |},
    {| role := "user";
       content := String.concat (nl +:+ nl) (source_blocks 0 (x :: xs)) |}.
  split; [| split; [reflexivity | split; [reflexivity |]]].
  - apply elem_of_app. right. right. left.
  - change (contains (String.concat (nl +:+ nl) (source_blocks 0 (x :: xs)))
                     (source_block k r)).
    apply (concat_contains _ _ k).
    apply (source_blocks_lookup (x :: xs) 0 k r Hk).
Qed.

Lemma summarizer_shows_every_source_witness :
  exists call system user,
    EvCompletion call
      ∈ trace_of (summarize_sources [SearchResult_of_hit one_hit] "Zoos should be closed"
                    "pro" silent_client "mistral-small-latest" [])
    /\ cc_messages call = [system; user]
    /\ role user = "user"
    /\ contains (content user) (source_block 0 (SearchResult_of_hit one_hit)).
Proof.
  apply (summarizer_shows_every_source [SearchResult_of_hit one_hit]
           "Zoos should be closed" "pro" silent_client "mistral-small-latest" [] 0).
  reflexivity.
Defined.

(** ** Sides and formats *)

(** X13. [opposite_side] swaps the two sides: it never returns its
    argument, applying it twice gives the side back, and its value is the
    [agent_side] string that [main] computes on its own from the student's
    side. *)
Theorem opposite_side_swaps (side : DebateSide.t) :
  opposite_side side <> side
  /\ opposite_side (opposite_side side) = side
  /\ DebateSide.value (opposite_side side) = agent_side_attr side.
Proof. destruct side; (split; [discriminate | split; reflexivity]). Qed.

(** X14. The by-value constructors of the two enumerations invert
    [.value]: [DebateSide(s.value)] is [s] and [OutputFormat(f.value)] is
    [f]; a string is accepted exactly when it is the value of a member, the
    member returned has that value, and every other string raises a
    [ValueError]. *)
Theorem enum_value_round_trip :
  (forall s, DebateSide.of_value (DebateSide.value s) = inr s)
  /\ (forall v s, DebateSide.of_value v = inr s <-> DebateSide.value s = v)
  /\ (forall v, v ∉ ["pro"; "con"] ->
        exists msg, DebateSide.of_value v = inl (ExValueError msg None))
  /\ (forall f, OutputFormat.of_value (OutputFormat.value f) = inr f)
  /\ (forall v f, OutputFormat.of_value v = inr f <-> OutputFormat.value f = v)
  /\ (forall v, v ∉ ["points"; "rebuttal_paragraphs"; "referenced_paragraphs"] ->
        exists msg, OutputFormat.of_value v = inl (ExValueError msg None)).
Proof.
  split; [| split; [| split; [| split; [| split]]]].
  - intros []; reflexivity.
  - intros v s. unfold DebateSide.of_value. simpl. split.
    + repeat case_bool_decide; intros [= <-]; subst; reflexivity.
    + intros <-. destruct s; reflexivity.
  - intros v Hv. unfold DebateSide.of_value. simpl.
    repeat case_bool_decide; subst; try (exfalso; apply Hv; set_solver).
    eexists. reflexivity.
  - intros []; reflexivity.
  - intros v f. unfold OutputFormat.of_value. simpl. split.
    + repeat case_bool_decide; intros [= <-]; subst; reflexivity.
    + intros <-. destruct f; reflexivity.
  - intros v Hv. unfold OutputFormat.of_value. simpl.
    repeat case_bool_decide; subst; try (exfalso; apply Hv; set_solver).
    eexists. reflexivity.
Qed.

Lemma enum_value_round_trip_witness :
  exists msg, OutputFormat.of_value "evidence_based" = inl (ExValueError msg None).
Proof.
  destruct enum_value_round_trip as (_ & _ & _ & _ & _ & Hbad).
  apply Hbad. intros Hin.
  repeat (apply elem_of_cons in Hin as [Heq | Hin]; [discriminate |]).
  inversion Hin.
Defined.

(** ** Reading the student's argument *)

(** X15. [read_argument_text] prefers a non-empty [--argument] and then
    never looks at the file system; an empty [--argument] counts as absent;
    the text of the file is returned as it is read and a failure to read it
    is raised; the run exits with "Provide --argument or --argument_file"
    exactly when both options are absent or empty. *)
Theorem read_argument_text_precedence (fs : string -> FileOutcome)
    (arg path : option string) :
  (forall a, truthy arg = Some a ->
     forall fs' path', read_argument_text fs' arg path' = inr a)
  /\ read_argument_text fs (Some "") path = read_argument_text fs None path
  /\ (forall p, truthy arg = None -> truthy path = Some p ->
        read_argument_text fs arg path
        = match fs p with
          | FileContents text => inr text
          | OpenRaises msg => inl (OSError msg)
          end)
  /\ (forall msg, read_argument_text fs arg path = inl (SystemExit msg)
        <-> truthy arg = None /\ truthy path = None
            /\ msg = "Provide --argument or --argument_file").
Proof.
  split; [| split; [| split]].
  - intros a Ha fs' path'. unfold read_argument_text. rewrite Ha. reflexivity.
  - reflexivity.
  - intros p Ha Hp. unfold read_argument_text. rewrite Ha, Hp. reflexivity.
  - intros msg. unfold read_argument_text.
    destruct (truthy arg) as [a |]; [split; [discriminate | intros [[=] _]] |].
    destruct (truthy path) as [p |].
    + destruct (fs p); split; try discriminate; intros (_ & [=] & _).
    + split; [intros [= <-]; auto | intros (_ & _ & ->); reflexivity].
Qed.

Lemma read_argument_text_precedence_witness :
  read_argument_text (fun _ => OpenRaises "No such file") (Some "Zoos educate.")
    (Some "missing.txt")
  = inr "Zoos educate."
  /\ read_argument_text (fun _ => FileContents "From the file.") (Some "")
       (Some "argument.txt")
     = inr "From the file.".
Proof.
  split.
  - apply (read_argument_text_precedence (fun _ => OpenRaises "No such file")
             (Some "Zoos educate.") (Some "missing.txt")). reflexivity.
  - apply (read_argument_text_precedence (fun _ => FileContents "From the file.")
             (Some "") (Some "argument.txt") : _ /\ _ /\ (forall p, _) /\ _);
      reflexivity.
Defined.

(** ** What [main] prints *)

Lemma prints_ret {X} : prints (X := X) (ret tt) [].
Proof. intros tr. unfold ret. simpl. rewrite app_nil_r. reflexivity. Qed.

Lemma prints_print {X} line : prints (X := X) (print line) [line].
Proof. intros tr. reflexivity. Qed.

Lemma prints_seq {X} (m k : Eff X unit) l1 l2 :
  prints m l1 -> prints k l2 -> prints (bind m (fun _ => k)) (l1 ++ l2).
Proof.
  intros Hm Hk tr. unfold bind. rewrite Hm, Hk, map_app, app_assoc. reflexivity.
Qed.

Lemma print_points_prints {X} cps : forall i,
  exists lines,
    prints (X := X) (print_points i cps) lines
    /\ length lines = (length cps + length (List.filter has_support cps))%nat
    /\ (forall k cp, cps !! k = Some cp ->
          (pretty (i + k)%nat +:+ ". " +:+ cp_point cp) ∈ lines).
Proof.
  induction cps as [| cp rest IH]; intros i; simpl.
  - exists []. split; [apply prints_ret |]. split; [reflexivity |]. intros k cp [=].
  - destruct (IH (S i)) as (lines & Hp & Hlen & Hin).
    exists ((pretty i +:+ ". " +:+ cp_point cp)
            :: (match truthy (cp_support cp) with
                | Some support => ["   - " +:+ support]
                | None => []
                end) ++ lines).
    split; [| split].
    + apply (prints_seq _ _ [_] _ (prints_print _)).
      apply prints_seq; [| exact Hp].
      destruct (truthy (cp_support cp)); [apply prints_print | apply prints_ret].
    + simpl.
      assert (Hhs : has_support cp = match truthy (cp_support cp) with
                                     | Some _ => true
                                     | None => false
                                     end) by reflexivity.
      rewrite Hhs.
      destruct (truthy (cp_support cp)); simpl; rewrite ?length_app, Hlen; simpl; lia.
    + intros k cp' Hk. destruct k as [| k]; simpl in Hk.
      * injection Hk as ->. rewrite Nat.add_0_r. left.
      * right. apply elem_of_app. right.
        replace (i + S k)%nat with (S i + k)%nat by lia. apply Hin, Hk.
Qed.

Lemma print_reference_prints {X} url title claim :
  prints (X := X) (print_reference url title claim) (reference_lines url title claim).
Proof.
  unfold print_reference, reference_lines.
  destruct (truthy claim) as [c |].
  - apply (prints_seq _ _ [_] [_]); apply prints_print.
  - destruct (truthy title); apply prints_print.
Qed.

Lemma print_references_prints {X R} (show : R -> Eff X unit) (f : R -> list string) refs :
  (forall ref, prints (show ref) (f ref)) ->
  prints (print_references show refs) (flat_map f refs).
Proof.
  intros Hshow. induction refs as [| ref rest IH]; simpl.
  - apply prints_ret.
  - apply prints_seq; [apply Hshow | exact IH].
Qed.

Lemma print_paragraph_prints {X R} (show : R -> Eff X unit) (f : R -> list string)
    text refs :
  (forall ref, prints (show ref) (f ref)) ->
  prints (print_paragraph show text refs) (paragraph_lines f text refs).
Proof.
  intros Hshow. unfold print_paragraph, paragraph_lines.
  apply (prints_seq _ _ [_] _ (prints_print _)).
  destruct refs as [| ref rest]; [apply prints_ret |].
  apply (prints_seq _ _ [_] _ (prints_print _)).
  apply print_references_prints, Hshow.
Qed.

Lemma print_referenced_prints `{U : UrlLib} {X} paras :
  prints (X := X) (print_referenced paras)
    (flat_map (fun p => paragraph_lines
                          (fun c => reference_lines (AnyUrl_str (ref_url c)) (ref_title c) None)
                          (rp_text p) (rp_references p)) paras).
Proof.
  induction paras as [| p rest IH]; [apply prints_ret |].
  exact (prints_seq _ _
           (paragraph_lines
              (fun c => reference_lines (AnyUrl_str (ref_url c)) (ref_title c) None)
              (rp_text p) (rp_references p)) _
           (print_paragraph_prints _ _ _ _ (fun c => print_reference_prints _ _ _))
           IH).
Qed.

Lemma print_evidence_prints {X} paras :
  prints (X := X) (print_evidence paras)
    (flat_map (fun p => paragraph_lines
                          (fun c => reference_lines (ebr_url c) (ebr_title c)
                                      (Some (ebr_supporting_claim c)))
                          (ebp_text p) (ebp_references p)) paras).
Proof.
  induction paras as [| p rest IH]; [apply prints_ret |].
  exact (prints_seq _ _
           (paragraph_lines
              (fun c => reference_lines (ebr_url c) (ebr_title c)
                          (Some (ebr_supporting_claim c)))
              (ebp_text p) (ebp_references p)) _
           (print_paragraph_prints _ _ _ _ (fun c => print_reference_prints _ _ _))
           IH).
Qed.

Lemma reference_lines_end_with_url url title :
  exists line, reference_lines url title None = [line] /\ ends_with line url.
Proof.
  unfold reference_lines. simpl. destruct (truthy title) as [t |].
  - eexists. split; [reflexivity |]. exists ("- " +:+ t +:+ ": ").
    rewrite !append_assoc. reflexivity.
  - eexists. split; [reflexivity |]. exists "- ". reflexivity.
Qed.

(** X16. A [PointsResponse] is printed as a numbered list: the k-th point
    (counting from 0) comes out as "<k+1>. <point>", one more line is
    printed for each point with a non-empty support and for no other, and
    printing never fails. *)
Theorem points_are_numbered_from_one `{U : UrlLib} (X : Type) (r : PointsResponse)
    (tr : Trace) :
  exists lines,
    print_result (X := X) (ResPoints r) tr = (inr tt, tr ++ map EvPrint lines)
    /\ length lines
       = (length (pr_points r) + length (List.filter has_support (pr_points r)))%nat
    /\ (forall k cp, pr_points r !! k = Some cp ->
          (pretty (S k) +:+ ". " +:+ cp_point cp) ∈ lines).
Proof.
  destruct (print_points_prints (X := X) (pr_points r) 1) as (lines & Hp & Hlen & Hin).
  exists lines. split; [apply Hp |]. split; [exact Hlen |].
  intros k cp Hk. apply (Hin k cp Hk).
Qed.

Lemma points_are_numbered_from_one_witness :
  exists lines,
    print_result (U := plain_urls) (X := Exn)
      (ResPoints {| pr_points := [ {| cp_point := "Zoos fund conservation";
                                      cp_support := Some "" |};
                                   {| cp_point := "Zoos educate";
                                      cp_support := Some "school visits" |} ] |}) []
    = (inr tt, map EvPrint lines)
    /\ length lines = 3%nat
    /\ "2. Zoos educate" ∈ lines.
Proof.
  destruct (points_are_numbered_from_one (U := plain_urls) Exn
              {| pr_points := [ {| cp_point := "Zoos fund conservation";
                                   cp_support := Some "" |};
                                {| cp_point := "Zoos educate";
                                   cp_support := Some "school visits" |} ] |} [])
    as (lines & Hp & Hlen & Hin).
  exists lines. split; [exact Hp |]. split; [exact Hlen |].
  apply (Hin 1%nat {| cp_point := "Zoos educate"; cp_support := Some "school visits" |}).
  reflexivity.
Defined.

Lemma length_flat_map_singleton {A B} (f : A -> list B) l :
  (forall a, length (f a) = 1%nat) -> length (flat_map f l) = length l.
Proof.
  intros Hf. induction l as [| a l IH]; simpl; [reflexivity |].
  rewrite length_app, Hf, IH. reflexivity.
Qed.

Lemma elem_of_flat_map_intro {A B} (f : A -> list B) l a y :
  a ∈ l -> y ∈ f a -> y ∈ flat_map f l.
Proof.
  rewrite !list_elem_of_In, in_flat_map. eauto.
Qed.

Lemma referenced_lines_shape `{U : UrlLib} (ps : list ReferencedParagraph) :
  Forall (fun p => rp_references p <> []) ps ->
  let lines :=
    flat_map (fun p => paragraph_lines
                         (fun c => reference_lines (AnyUrl_str (ref_url c)) (ref_title c) None)
                         (rp_text p) (rp_references p)) ps in
  length lines
  = (2 * length ps + length (RP_cited_urls {| rps_paragraphs := ps |}))%nat
  /\ (forall u, u ∈ RP_cited_urls {| rps_paragraphs := ps |} ->
        exists line, line ∈ lines /\ ends_with line u).
Proof.
  unfold RP_cited_urls; simpl. induction 1 as [| p rest Hp _ IH]; simpl.
  - split; [reflexivity |]. intros u Hu. inversion Hu.
  - destruct IH as [IHlen IHin].
    destruct (rp_references p) as [| c cs] eqn:Hrefs; [exfalso; apply Hp; reflexivity |].
    split.
    + rewrite !length_app, IHlen, length_map. simpl. rewrite !length_app.
      rewrite (length_flat_map_singleton _ cs).
      * destruct (reference_lines_end_with_url (AnyUrl_str (ref_url c)) (ref_title c))
          as (line & -> & _).
        simpl. lia.
      * intros a.
        destruct (reference_lines_end_with_url (AnyUrl_str (ref_url a)) (ref_title a))
          as (line & -> & _).
        reflexivity.
    + intros u [Hu | Hu]%elem_of_app.
      * apply list_elem_of_fmap in Hu as (a & -> & Ha).
        destruct (reference_lines_end_with_url (AnyUrl_str (ref_url a)) (ref_title a))
          as (line & Hline & Hends).
        exists line. split; [| exact Hends].
        right. right. apply elem_of_app. left.
        apply (elem_of_flat_map_intro _ (c :: cs) a); [exact Ha |].
        rewrite Hline. left.
      * destruct (IHin u Hu) as (line & Hline & Hends).
        exists line. split; [| exact Hends].
        right. apply elem_of_app. right. exact Hline.
Qed.

(** X17. A [ReferencedParagraphs] that was constructed is printed in full:
    each paragraph gives its text and a "References:" header (the
    [if para.references] test cannot fail after construction), each
    citation gives exactly one line, and that line ends with the cited URL. *)
Theorem constructed_citations_are_all_printed `{U : UrlLib} (W : World) (X : Type)
    (raw : RawReferencedParagraphs) (r : ReferencedParagraphs) (tr tr' t : Trace) :
  construct_ReferencedParagraphs W raw tr = (inr r, tr') ->
  exists lines,
    print_result (X := X) (ResReferenced r) t = (inr tt, t ++ map EvPrint lines)
    /\ length lines = (2 * length (rps_paragraphs r) + length (RP_cited_urls r))%nat
    /\ (forall u, u ∈ RP_cited_urls r -> exists line, line ∈ lines /\ ends_with line u).
Proof.
  intros Hc. apply RP_success_nonempty in Hc.
  destruct (referenced_lines_shape (rps_paragraphs r) Hc) as [Hlen Hin].
  eexists. split; [apply print_referenced_prints |].
  destruct r as [ps]. split; [exact Hlen | exact Hin].
Qed.

Lemma constructed_citations_are_all_printed_witness :
  exists lines,
    print_result (U := plain_urls) (X := Exn)
      (ResReferenced {| rps_paragraphs := [plain_paragraph "one" ["http://a.example/"]] |}) []
    = (inr tt, map EvPrint lines)
    /\ length lines = 3%nat.
Proof.
  destruct (constructed_citations_are_all_printed (U := plain_urls) live_world Exn
              {| raw_paragraphs := [paragraph "one" ["http://a.example/"]] |}
              {| rps_paragraphs := [plain_paragraph "one" ["http://a.example/"]] |}
              [] [EvHttp (probe HEAD "http://a.example/")] [] eq_refl)
    as (lines & Hp & Hlen & _).
  exists lines. split; [exact Hp | exact Hlen].
Defined.

Lemma evidence_lines_shape (ps : list EvidenceBasedParagraph) :
  Forall (fun p => ebp_references p <> []) ps ->
  let show := fun c => reference_lines (ebr_url c) (ebr_title c)
                         (Some (ebr_supporting_claim c)) in
  let lines := flat_map (fun p => paragraph_lines show (ebp_text p) (ebp_references p)) ps in
  length lines
  = (2 * length ps + length (flat_map ebp_references ps)
     + length (List.filter has_claim (flat_map ebp_references ps)))%nat
  /\ (forall p c, p ∈ ps -> c ∈ ebp_references p -> forall line, line ∈ show c -> line ∈ lines).
Proof.
  intros Hne show lines. subst lines.
  assert (Hshow : forall c, length (show c) = (1 + if has_claim c then 1 else 0)%nat).
  { intros c. unfold show, reference_lines, has_claim. simpl.
    case_bool_decide; simpl; [destruct (truthy (ebr_title c)) |]; reflexivity. }
  assert (Hrefs : forall cs, length (flat_map show cs)
                             = (length cs + length (List.filter has_claim cs))%nat).
  { induction cs as [| c cs IH]; simpl; [reflexivity |].
    rewrite length_app, Hshow, IH. destruct (has_claim c); simpl; lia. }
  induction Hne as [| p rest Hp _ IH]; simpl.
  - split; [reflexivity |]. intros p c Hp. inversion Hp.
  - destruct IH as [IHlen IHin]. split.
    + rewrite !length_app, List.filter_app, !length_app, IHlen.
      destruct (ebp_references p) as [| c cs] eqn:Hr; [exfalso; apply Hp; reflexivity |].
      cbn [length]. rewrite Hrefs. cbn [length]. lia.
    + intros q c [-> | Hq]%elem_of_cons Hc line Hline.
      * destruct (ebp_references p) as [| c0 cs] eqn:Hr; [inversion Hc |].
        right. right. apply elem_of_app. left.
        apply (elem_of_flat_map_intro show (c0 :: cs) c); assumption.
      * right. apply elem_of_app. right. apply (IHin q c Hq Hc line Hline).
Qed.

(** X18. An [EvidenceBasedResponse] that was constructed is printed with
    two header lines per paragraph, one line per reference and one more
    per reference with a non-empty supporting claim.  A reference with a
    claim comes out as "- <url>" and "  Claim: <claim>"; its title is not
    printed. *)
Theorem constructed_evidence_is_printed_with_claims `{U : UrlLib} (X : Type)
    (raw r : EvidenceBasedResponse) (tr tr' t : Trace) :
  construct_EvidenceBasedResponse raw tr = (inr r, tr') ->
  exists lines,
    print_result (X := X) (ResEvidence r) t = (inr tt, t ++ map EvPrint lines)
    /\ length lines
       = (2 * length (ebs_paragraphs r) + length (EB_references r)
          + length (List.filter has_claim (EB_references r)))%nat
    /\ (forall p c, p ∈ ebs_paragraphs r -> c ∈ ebp_references p ->
          ebr_supporting_claim c <> "" ->
          ("- " +:+ ebr_url c) ∈ lines
          /\ ("  Claim: " +:+ ebr_supporting_claim c) ∈ lines).
Proof.
  intros Hc. apply construct_EvidenceBasedResponse_inr in Hc as [-> [Hne _]].
  destruct (evidence_lines_shape (ebs_paragraphs raw) Hne) as [Hlen Hin].
  eexists. split; [apply print_evidence_prints |]. split; [exact Hlen |].
  intros p c Hp Hcin Hclaim.
  assert (Hlines : reference_lines (ebr_url c) (ebr_title c) (Some (ebr_supporting_claim c))
                   = ["- " +:+ ebr_url c; "  Claim: " +:+ ebr_supporting_claim c]).
  { unfold reference_lines. simpl.
    rewrite bool_decide_eq_false_2 by exact Hclaim. reflexivity. }
  split; apply (Hin p c Hp Hcin); rewrite Hlines; [left | right; left].
Qed.

Lemma constructed_evidence_is_printed_with_claims_witness :
  exists lines,
    print_result (U := plain_urls) (X := Exn)
      (ResEvidence {| ebs_paragraphs := [evidence_paragraph "one" ["https://who.int/fact"]] |})
      []
    = (inr tt, map EvPrint lines)
    /\ length lines = 4%nat
    /\ "  Claim: claim" ∈ lines.
Proof.
  destruct (constructed_evidence_is_printed_with_claims (U := plain_urls) Exn
              {| ebs_paragraphs := [evidence_paragraph "one" ["https://who.int/fact"]] |}
              {| ebs_paragraphs := [evidence_paragraph "one" ["https://who.int/fact"]] |}
              [] [] [] eq_refl)
    as (lines & Hp & Hlen & Hin).
  exists lines. split; [exact Hp |]. split; [exact Hlen |].
  apply (Hin (evidence_paragraph "one" ["https://who.int/fact"])
             (evidence_ref "https://who.int/fact")); [left | left | discriminate].
Defined.

(** ** The span decorator *)

(** X19. A function wrapped by [span] never receives the [span_attrs]
    keyword: it is called inside the telemetry span with the same
    positional arguments and with every other keyword unchanged.  The span
    attributes are the [span_attrs] value when it is present and truthy,
    and the empty dict otherwise. *)
Theorem span_strips_span_attrs (Val : Type) (is_truthy : Val -> bool) (empty_dict : Val)
    (logfire_span : forall X A : Type, string -> Val -> Eff X A -> Eff X A)
    (X A : Type) (name : string) (func : list Val -> gmap string Val -> Eff X A)
    (args : list Val) (kwargs : gmap string Val) :
  exists attrs passed,
    span Val is_truthy empty_dict logfire_span name func args kwargs
    = logfire_span X A name attrs (func args passed)
    /\ passed !! "span_attrs" = None
    /\ (forall key, key <> "span_attrs" -> passed !! key = kwargs !! key)
    /\ (kwargs !! "span_attrs" = Some attrs /\ is_truthy attrs = true
        \/ attrs = empty_dict
           /\ forall v, kwargs !! "span_attrs" = Some v -> is_truthy v = false).
Proof.
  unfold span. eexists _, (delete "span_attrs" kwargs).
  split; [reflexivity |]. split; [apply lookup_delete_eq |].
  split; [intros key Hkey; apply lookup_delete_ne; congruence |].
  destruct (kwargs !! "span_attrs") as [v |] eqn:Hv.
  - destruct (is_truthy v) eqn:Ht.
    + left. split; reflexivity || exact Ht.
    + right. split; [reflexivity |]. intros v' [= <-]. exact Ht.
  - right. split; [reflexivity |]. intros v' [=].
Qed.
